(** * Gemini AI Room Makeover: a shallow embedding of [App.tsx],
    [services/geminiService] and [components/MaskingCanvas]

    The definitions come first, one module for each part of the code:
    - [Js]: JavaScript strings as sequences of UTF-16 code units, with
      [split], [trim], the one regular expression of the code, and base64
      as [atob] and [readAsDataURL] use it;
    - [Dom]: files, thrown values, the request and the response of the
      [@google/genai] call;
    - [Async]: a small monad for asynchronous, fallible code ([await],
      [throw], [try]/[catch], React state setters, and the calls that
      leave the program), with the traces of its runs;
    - [Gemini]: [generateInpaintedImage];
    - [App]: the state cells of the [App] component and its handlers;
    - [MaskingCanvas]: the two canvases, the pointer handlers and the
      effects of the component;
    - [Samples]: concrete files, responses, worlds and states;
    - [AppView]: the conditions of the render of [App];
    - [Live]: [App] with its calls of [handleGenerate] interleaved with
      the other handlers at each [await];
    - [CanvasSpec], [Wiring], [MoreSamples]: strokes as polylines, the
      reports of the canvas delivered to [App], more sample values.

    The facts follow, in the modules [JsFacts], [GeminiFacts],
    [AsyncFacts], [ConversionFacts], [AppFacts], [MaskingCanvasFacts],
    [GeminiMore], [ConversionMore], [AppMore], [LiveFacts], [CanvasMore]
    and [WiringFacts]. *)

From Stdlib Require Import NArith ZArith List Lia ZifyBool ZifyNat Bool String Ascii.
From Stdlib Require Import Floats.PrimFloat Floats.FloatOps Floats.SpecFloat.
Import ListNotations.

Ltac Zify.zify_post_hook ::= Z.to_euclidean_division_equations.

(* ================================================================== *)
(** * JavaScript strings and the platform codecs *)
(* ================================================================== *)

Module Js.

Open Scope N_scope.

(** A JavaScript string is a finite sequence of UTF-16 code units. *)
Definition jsstring := list N.

(** String literals of the source, written as Rocq strings. *)
Definition lit (s : string) : jsstring :=
  map N_of_ascii (list_ascii_of_string s).

Definition COMMA : N := Eval cbv in N_of_ascii ",".
Definition COLON : N := Eval cbv in N_of_ascii ":".
Definition SEMI : N := Eval cbv in N_of_ascii ";".
Definition EQUALS : N := Eval cbv in N_of_ascii "=".

(** [s] used as a condition: the empty string is falsy. *)
Definition truthy (s : jsstring) : bool :=
  match s with [] => false | _ :: _ => true end.

(** [o] used as a condition where [o] is [string | null | undefined]. *)
Definition truthy_opt (o : option jsstring) : bool :=
  match o with None => false | Some s => truthy s end.

(** ** [String.prototype.split] with a one-character separator *)

Fixpoint split (sep : N) (s : jsstring) : list jsstring :=
  match s with
  | [] => [[]]
  | c :: s' =>
      if c =? sep then [] :: split sep s'
      else match split sep s' with
           | seg :: segs => (c :: seg) :: segs
           | [] => [[c]]
           end
  end.

(** ** [String.prototype.trim] *)

(** ECMAScript LineTerminator: LF, CR, LS, PS. *)
Definition isLineTerminator (c : N) : bool :=
  (c =? 10) || (c =? 13) || (c =? 8232) || (c =? 8233).

(** ECMAScript WhiteSpace: TAB, VT, FF, SP, NBSP, ZWNBSP and category Zs. *)
Definition isWhiteSpace (c : N) : bool :=
  (c =? 9) || (c =? 11) || (c =? 12) || (c =? 32) || (c =? 160)
  || (c =? 65279) || (c =? 5760) || ((8192 <=? c) && (c <=? 8202))
  || (c =? 8239) || (c =? 8287) || (c =? 12288).

Definition isTrimmed (c : N) : bool := isWhiteSpace c || isLineTerminator c.

Fixpoint trimStart (s : jsstring) : jsstring :=
  match s with
  | [] => []
  | c :: s' => if isTrimmed c then trimStart s' else s
  end.

Definition trimEnd (s : jsstring) : jsstring := rev (trimStart (rev s)).

Definition trim (s : jsstring) : jsstring := trimEnd (trimStart s).

(** ** The regular expression [/:(.*?);/]

    [dot_until_semi s] matches [(.*?);] at the start of [s]: the lazy
    group takes as few characters as possible, and [.] does not match a
    line terminator. *)
Fixpoint dot_until_semi (s : jsstring) : option jsstring :=
  match s with
  | [] => None
  | c :: s' =>
      if c =? SEMI then Some []
      else if isLineTerminator c then None
      else match dot_until_semi s' with
           | Some m => Some (c :: m)
           | None => None
           end
  end.

(** [match_colon_semi s] is capture group 1 of [s.match(/:(.*?);/)], the
    leftmost match; [None] is the [null] of a failed match. *)
Fixpoint match_colon_semi (s : jsstring) : option jsstring :=
  match s with
  | [] => None
  | c :: s' =>
      if c =? COLON then
        match dot_until_semi s' with
        | Some m => Some m
        | None => match_colon_semi s'
        end
      else match_colon_semi s'
  end.

(** ** Base64 *)

(** The character of a 6-bit value in the base64 alphabet. *)
Definition b64char (v : N) : N :=
  if v <? 26 then 65 + v
  else if v <? 52 then 97 + (v - 26)
  else if v <? 62 then 48 + (v - 52)
  else if v =? 62 then 43
  else 47.

(** The 6-bit value of a character of the alphabet. *)
Definition b64value (c : N) : option N :=
  if (65 <=? c) && (c <=? 90) then Some (c - 65)
  else if (97 <=? c) && (c <=? 122) then Some (c - 97 + 26)
  else if (48 <=? c) && (c <=? 57) then Some (c - 48 + 52)
  else if c =? 43 then Some 62
  else if c =? 47 then Some 63
  else None.

(** The 6-bit groups of a byte sequence; a final group of one or two
    bytes gives two or three values, its missing bits being zero. *)
Fixpoint sextets_of_bytes (bs : list N) : list N :=
  match bs with
  | [] => []
  | [a] => [a / 4; (a mod 4) * 16]
  | [a; b] => [a / 4; (a mod 4) * 16 + b / 16; (b mod 16) * 4]
  | a :: b :: c :: rest =>
      a / 4 :: (a mod 4) * 16 + b / 16 :: (b mod 16) * 4 + c / 64
        :: c mod 64 :: sextets_of_bytes rest
  end.

Definition padding (n : nat) : jsstring :=
  match Nat.modulo n 3 with
  | 1%nat => [EQUALS; EQUALS]
  | 2%nat => [EQUALS]
  | _ => []
  end.

(** RFC 4648 base64 with padding, as [FileReader.readAsDataURL] and
    [HTMLCanvasElement.toDataURL] produce it. *)
Definition base64_encode (bs : list N) : jsstring :=
  map b64char (sextets_of_bytes bs) ++ padding (List.length bs).

(** The forgiving-base64 decoder of the WHATWG Infra standard, which
    [atob] runs. *)
Definition isAsciiWhitespace (c : N) : bool :=
  (c =? 9) || (c =? 10) || (c =? 12) || (c =? 13) || (c =? 32).

(** Step 2 of the decoder: when the length is a multiple of four, one or
    two U+003D at the end are removed. *)
Definition dropEquals (reversed : jsstring) : jsstring :=
  match reversed with
  | c :: r => if c =? EQUALS then r else reversed
  | [] => []
  end.

Definition strip_padding (s : jsstring) : jsstring :=
  if Nat.eqb (Nat.modulo (List.length s) 4) 0
  then rev (dropEquals (dropEquals (rev s)))
  else s.

Fixpoint values_of (s : jsstring) : option (list N) :=
  match s with
  | [] => Some []
  | c :: s' =>
      match b64value c, values_of s' with
      | Some v, Some vs => Some (v :: vs)
      | _, _ => None
      end
  end.

Fixpoint bytes_of_sextets (vs : list N) : list N :=
  match vs with
  | a :: b :: c :: d :: rest =>
      a * 4 + b / 16 :: (b mod 16) * 16 + c / 4 :: (c mod 4) * 64 + d
        :: bytes_of_sextets rest
  | [a; b; c] => [a * 4 + b / 16; (b mod 16) * 16 + c / 4]
  | [a; b] => [a * 4 + b / 16]
  | _ => []
  end.

Definition forgiving_base64_decode (data : jsstring) : option (list N) :=
  let data := filter (fun c => negb (isAsciiWhitespace c)) data in
  let data := strip_padding data in
  if Nat.eqb (Nat.modulo (List.length data) 4) 1 then None
  else match values_of data with
       | Some vs => Some (bytes_of_sextets vs)
       | None => None
       end.

End Js.

(* ================================================================== *)
(** * Values exchanged with the platform and with the SDK *)
(* ================================================================== *)

Module Dom.

Import Js.
Open Scope N_scope.

(** A [File]: the attributes the code reads ([size], [type], [name]) and
    the bytes a [FileReader] finds in it. *)
Record File := {
  name : jsstring;
  type : jsstring;
  size : N;
  bytes : list N
}.

(** The [File] constructor keeps a [type] option only when all its
    characters are in U+0020..U+007E, and lower-cases it (File API). *)
Definition asciiLower (c : N) : N :=
  if (65 <=? c) && (c <=? 90) then c + 32 else c.

Definition printable (c : N) : bool := (32 <=? c) && (c <=? 126).

Definition normalizeType (t : jsstring) : jsstring :=
  if forallb printable t then map asciiLower t else [].

(** A media type that the conversions of [App] carry unchanged: not
    empty, printable, without upper-case letters and without the three
    separators at which the code splits. *)
Definition plainMimeChar (c : N) : bool :=
  printable c && negb ((65 <=? c) && (c <=? 90))
  && negb (c =? COMMA) && negb (c =? COLON) && negb (c =? SEMI).

Definition plainMime (mime : jsstring) : bool :=
  truthy mime && forallb plainMimeChar mime.

(** [new File([u8arr], filename, { type })]. *)
Definition newFile (u8arr : list N) (filename type : jsstring) : File :=
  {| name := filename;
     type := normalizeType type;
     size := N.of_nat (List.length u8arr);
     bytes := u8arr |}.

(** The string [FileReader.readAsDataURL] leaves in [reader.result]; a
    file without a type is given [application/octet-stream]. *)
Definition dataURLofFile (f : File) : jsstring :=
  lit "data:"
  ++ (if truthy (type f) then type f else lit "application/octet-stream")
  ++ lit ";base64," ++ base64_encode (bytes f).

(** What JavaScript code throws, and what a [catch] receives. *)
Inductive Thrown :=
| ErrorObj (message : jsstring)
| DOMException (name message : jsstring)
| ProgressEvent
| Foreign (message : option jsstring) (id : N).

(** [error.message]; [None] is [undefined]. *)
Definition message_of (e : Thrown) : option jsstring :=
  match e with
  | ErrorObj m => Some m
  | DOMException _ m => Some m
  | ProgressEvent => None
  | Foreign m _ => m
  end.

(** [atob]: [inl] is the [InvalidCharacterError] it throws.  The text of
    that exception is the browser's; no handler of the code reads it. *)
Definition atob (data : jsstring) : Thrown + jsstring :=
  match forgiving_base64_decode data with
  | Some bs => inr bs
  | None =>
      inl (DOMException (lit "InvalidCharacterError")
             (lit "The string to be decoded is not correctly encoded."))
  end.

(** [s.charCodeAt(n)]; [None] is the [NaN] of an index out of range. *)
Definition charCodeAt (s : jsstring) (n : nat) : option N := nth_error s n.

(** [u8arr[n] = v] on a [Uint8Array]: the value is reduced modulo 256
    ([NaN] becomes 0) and a write out of range is ignored. *)
Fixpoint store (n : nat) (v : option N) (u8arr : list N) : list N :=
  match u8arr, n with
  | [], _ => []
  | _ :: rest, O => match v with Some c => c mod 256 | None => 0 end :: rest
  | b :: rest, S n' => b :: store n' v rest
  end.

(** ** The request and the response of [ai.models.generateContent] *)

Record InlineData := {
  mimeType : jsstring;
  data : option jsstring
}.

Inductive RequestPart :=
| TextPart (text : jsstring)
| InlineDataPart (inlineData : InlineData).

Inductive Modality := TEXT | IMAGE | AUDIO.

Record Request := {
  model : jsstring;
  parts : list RequestPart;
  responseModalities : list Modality
}.

(** [GenerateContentResponse]: every level is optional, as the code's
    [?.] chain expects; [response_text] is the SDK's [text] accessor. *)
Record Blob := {
  blob_mimeType : option jsstring;
  blob_data : option jsstring
}.

Record Part := {
  part_text : option jsstring;
  part_inlineData : option Blob
}.

Record Content := { content_parts : option (list Part) }.

Record Candidate := { candidate_content : option Content }.

Record Response := {
  candidates : option (list Candidate);
  response_text : option jsstring
}.

End Dom.

(* ================================================================== *)
(** * Asynchronous, fallible, state-setting code *)
(* ================================================================== *)

Module Async.

Import Js Dom.

(** An argument of [console.error]. *)
Inductive LogArg :=
| LogText (s : jsstring)
| LogThrown (e : Thrown).

(** A computation over a component state [S] that ends in a value. The
    constructors are what the code can do besides computing: [throw],
    wait for a promise that never settles, call a React state setter,
    and the three calls that leave the program. *)
Inductive Prog (S A : Type) : Type :=
| Ret (a : A)
| Throw (e : Thrown)
| Hang
| SetState (f : S -> S) (k : Prog S A)
| GenerateContent (req : Request) (k : Thrown + Response -> Prog S A)
| ReadAsDataURL (f : File) (k : bool -> Prog S A)
| ConsoleError (args : list LogArg) (k : Prog S A).

Arguments Ret {S A} a.
Arguments Throw {S A} e.
Arguments Hang {S A}.
Arguments SetState {S A} f k.
Arguments GenerateContent {S A} req k.
Arguments ReadAsDataURL {S A} f k.
Arguments ConsoleError {S A} args k.

Fixpoint bind {S A B} (m : Prog S A) (f : A -> Prog S B) : Prog S B :=
  match m with
  | Ret a => f a
  | Throw e => Throw e
  | Hang => Hang
  | SetState g k => SetState g (bind k f)
  | GenerateContent req k => GenerateContent req (fun r => bind (k r) f)
  | ReadAsDataURL file k => ReadAsDataURL file (fun ok => bind (k ok) f)
  | ConsoleError args k => ConsoleError args (bind k f)
  end.

(** [try { m } catch (e) { h e }]. *)
Fixpoint try_catch {S A} (m : Prog S A) (h : Thrown -> Prog S A) : Prog S A :=
  match m with
  | Ret a => Ret a
  | Throw e => h e
  | Hang => Hang
  | SetState g k => SetState g (try_catch k h)
  | GenerateContent req k =>
      GenerateContent req (fun r => try_catch (k r) h)
  | ReadAsDataURL file k => ReadAsDataURL file (fun ok => try_catch (k ok) h)
  | ConsoleError args k => ConsoleError args (try_catch k h)
  end.

Notation "x <- m ;; k" := (bind m (fun x => k))
  (at level 61, m at next level, right associativity).

(** What lies outside the program: the answer of the service to a
    request ([inl] rejects the promise) and whether reading a file
    succeeds. *)
Record World := {
  gemini : Request -> Thrown + Response;
  reader : File -> bool
}.

(** What an observer outside sees a computation do. *)
Inductive Effect :=
| EGenerateContent (req : Request)
| EReadAsDataURL (f : File)
| EConsoleError (args : list LogArg).

Inductive Outcome (A : Type) :=
| Returned (a : A)
| Threw (e : Thrown)
| Pending.

Arguments Returned {A} a.
Arguments Threw {A} e.
Arguments Pending {A}.

(** [run w p s] runs [p] from component state [s] in world [w]: each
    effect with the component state in which it happened, oldest first,
    the last component state and the outcome. *)
Fixpoint run {S A} (w : World) (p : Prog S A) (s : S)
  : list (Effect * S) * S * Outcome A :=
  match p with
  | Ret a => ([], s, Returned a)
  | Throw e => ([], s, Threw e)
  | Hang => ([], s, Pending)
  | SetState f k => run w k (f s)
  | GenerateContent req k =>
      let '(tr, s', o) := run w (k (gemini w req)) s in
      ((EGenerateContent req, s) :: tr, s', o)
  | ReadAsDataURL file k =>
      let '(tr, s', o) := run w (k (reader w file)) s in
      ((EReadAsDataURL file, s) :: tr, s', o)
  | ConsoleError args k =>
      let '(tr, s', o) := run w k s in
      ((EConsoleError args, s) :: tr, s', o)
  end.

Definition trace {S A} (r : list (Effect * S) * S * Outcome A) := fst (fst r).
Definition final {S A} (r : list (Effect * S) * S * Outcome A) := snd (fst r).
Definition outcome {S A} (r : list (Effect * S) * S * Outcome A) := snd r.

Definition isRequest (e : Effect) : bool :=
  match e with EGenerateContent _ => true | _ => false end.

(** The requests to the image-generation service in a trace. *)
Definition requests {S} (tr : list (Effect * S)) : list Effect :=
  filter isRequest (map fst tr).

End Async.

(* ================================================================== *)
(** * services/geminiService *)
(* ================================================================== *)

Module Gemini.

Import Js Dom Async.

(** [parts.find((part) => !!part.inlineData)]. *)
Definition hasInlineData (part : Part) : bool :=
  match part_inlineData part with Some _ => true | None => false end.

(** [response.candidates?.[0]?.content?.parts?.find(...)]. *)
Definition imagePart (response : Response) : option Part :=
  match candidates response with
  | Some (candidate :: _) =>
      match candidate_content candidate with
      | Some content =>
          match content_parts content with
          | Some ps => find hasInlineData ps
          | None => None
          end
      | None => None
      end
  | _ => None
  end.

(** [imagePart?.inlineData?.data]. *)
Definition imageData (p : option Part) : option jsstring :=
  match p with
  | Some part =>
      match part_inlineData part with
      | Some blob => blob_data blob
      | None => None
      end
  | None => None
  end.

Definition request (originalImageBase64 : option jsstring)
    (originalMimeType : jsstring) (maskImageBase64 : option jsstring)
    (prompt : jsstring) : Request :=
  {| model := lit "gemini-2.5-flash-image";
     parts :=
       [ TextPart prompt;
         InlineDataPart
           {| mimeType := originalMimeType; data := originalImageBase64 |};
         InlineDataPart
           {| mimeType := lit "image/png"; data := maskImageBase64 |} ];
     responseModalities := [IMAGE] |}.

Definition noImageData : jsstring :=
  lit "Image generation failed: No image data received from the API.".

Definition modelResponse (responseText : jsstring) : jsstring :=
  lit "Image generation failed. Model response: " ++ responseText.

(** The [else] branch: [response.text?.trim()] decides the message. *)
Definition blocked {S} (response : Response) : Prog S jsstring :=
  match option_map trim (response_text response) with
  | Some responseText =>
      if truthy responseText then Throw (ErrorObj (modelResponse responseText))
      else Throw (ErrorObj noImageData)
  | None => Throw (ErrorObj noImageData)
  end.

(** What the code does with a response once the call has returned. *)
Definition extractImage {S} (response : Response) : Prog S jsstring :=
  match imageData (imagePart response) with
  | Some d => if truthy d then Ret d else blocked response
  | None => blocked response
  end.

(** [console.error("Gemini API call failed:", error)]. *)
Definition failureLog (error : Thrown) : list LogArg :=
  [LogText (lit "Gemini API call failed:"); LogThrown error].

(** The two base64 arguments are typed [string], but [handleGenerate] can
    pass [undefined]; hence [option]. *)
Definition generateInpaintedImage {S} (originalImageBase64 : option jsstring)
    (originalMimeType : jsstring) (maskImageBase64 : option jsstring)
    (prompt : jsstring) : Prog S jsstring :=
  try_catch
    (GenerateContent
       (request originalImageBase64 originalMimeType maskImageBase64 prompt)
       (fun r =>
          match r with
          | inl rejected => Throw rejected
          | inr response => extractImage response
          end))
    (fun error => ConsoleError (failureLog error) (Throw error)).

End Gemini.

(* ================================================================== *)
(** * App.tsx *)
(* ================================================================== *)

Module App.

Import Js Dom Async Gemini.
Open Scope N_scope.

(** Modelled from the spec: the enumeration [Status] is declared in
    [./types], which is not among the sources; its members are the five
    that [App.tsx] names, one for each stage of the pipeline upload, paint
    mask and prompt, call the endpoint, display the result, and one for a
    failed call. *)
Inductive Status := Idle | Masking | Loading | Done | Error.

Definition Status_eqb (a b : Status) : bool :=
  match a, b with
  | Idle, Idle | Masking, Masking | Loading, Loading
  | Done, Done | Error, Error => true
  | _, _ => false
  end.

(** The [useState] cells of [App]. *)
Record State := {
  status : Status;
  originalImage : option File;
  maskImage : option jsstring;
  prompt : jsstring;
  generatedImage : option jsstring;
  error : option jsstring;
  brushSize : float;
  clearCanvasCounter : N
}.

Definition initial : State :=
  {| status := Idle; originalImage := None; maskImage := None; prompt := [];
     generatedImage := None; error := None; brushSize := 40%float;
     clearCanvasCounter := 0 |}.

Definition setStatus (v : Status) (s : State) : State :=
  {| status := v; originalImage := originalImage s; maskImage := maskImage s;
     prompt := prompt s; generatedImage := generatedImage s; error := error s;
     brushSize := brushSize s; clearCanvasCounter := clearCanvasCounter s |}.

Definition setOriginalImage (v : option File) (s : State) : State :=
  {| status := status s; originalImage := v; maskImage := maskImage s;
     prompt := prompt s; generatedImage := generatedImage s; error := error s;
     brushSize := brushSize s; clearCanvasCounter := clearCanvasCounter s |}.

Definition setMaskImage (v : option jsstring) (s : State) : State :=
  {| status := status s; originalImage := originalImage s; maskImage := v;
     prompt := prompt s; generatedImage := generatedImage s; error := error s;
     brushSize := brushSize s; clearCanvasCounter := clearCanvasCounter s |}.

Definition setPrompt (v : jsstring) (s : State) : State :=
  {| status := status s; originalImage := originalImage s;
     maskImage := maskImage s; prompt := v;
     generatedImage := generatedImage s; error := error s;
     brushSize := brushSize s; clearCanvasCounter := clearCanvasCounter s |}.

Definition setGeneratedImage (v : option jsstring) (s : State) : State :=
  {| status := status s; originalImage := originalImage s;
     maskImage := maskImage s; prompt := prompt s; generatedImage := v;
     error := error s; brushSize := brushSize s;
     clearCanvasCounter := clearCanvasCounter s |}.

Definition setError (v : option jsstring) (s : State) : State :=
  {| status := status s; originalImage := originalImage s;
     maskImage := maskImage s; prompt := prompt s;
     generatedImage := generatedImage s; error := v;
     brushSize := brushSize s; clearCanvasCounter := clearCanvasCounter s |}.

Definition setBrushSize (v : float) (s : State) : State :=
  {| status := status s; originalImage := originalImage s;
     maskImage := maskImage s; prompt := prompt s;
     generatedImage := generatedImage s; error := error s;
     brushSize := v; clearCanvasCounter := clearCanvasCounter s |}.

(** [setClearCanvasCounter] takes an updater, as in [c => c + 1]. *)
Definition setClearCanvasCounter (f : N -> N) (s : State) : State :=
  {| status := status s; originalImage := originalImage s;
     maskImage := maskImage s; prompt := prompt s;
     generatedImage := generatedImage s; error := error s;
     brushSize := brushSize s;
     clearCanvasCounter := f (clearCanvasCounter s) |}.

Definition tooLarge : jsstring := lit "Image size should be less than 4MB.".

(** [file] is [event.target.files?.[0]]. *)
Definition handleImageUpload (file : option File) (s : State) : State :=
  match file with
  | Some f =>
      if 4 * 1024 * 1024 <? size f then setError (Some tooLarge) s
      else
        setMaskImage None
          (setGeneratedImage None
             (setError None (setStatus Masking (setOriginalImage (Some f) s))))
  | None => s
  end.

Definition handleMaskChange (maskDataUrl : jsstring) (s : State) : State :=
  setMaskImage (Some maskDataUrl) s.

Definition handleClearMask (s : State) : State :=
  setMaskImage None (setClearCanvasCounter (fun c => c + 1) s).

(** The reset of the file input element touches no state of [App]. *)
Definition handleStartOver (s : State) : State :=
  setClearCanvasCounter (fun _ => 0)
    (setError None
       (setGeneratedImage None
          (setPrompt []
             (setMaskImage None (setOriginalImage None (setStatus Idle s)))))).

(** The promise of [fileToBase64] resolves with this record; [base64] is
    the second element of a destructured array and can be [undefined]. *)
Record Base64File := {
  base64 : option jsstring;
  fileMimeType : jsstring
}.

(** The body of [reader.onload]; [None] when it throws, which leaves the
    promise unsettled. *)
Definition onload (result : jsstring) : option Base64File :=
  let parts := split COMMA result in
  let meta := nth 0 parts [] in
  let data := nth_error parts 1 in
  match nth_error (split COLON meta) 1 with
  | Some afterColon =>
      Some {| base64 := data;
              fileMimeType := nth 0 (split SEMI afterColon) [] |}
  | None => None
  end.

Definition fileToBase64 {S} (file : File) : Prog S Base64File :=
  ReadAsDataURL file (fun loaded =>
    if loaded then
      match onload (dataURLofFile file) with
      | Some r => Ret r
      | None => Hang
      end
    else Throw ProgressEvent).

(** The loop [while (n--) u8arr[n] = bstr.charCodeAt(n)]. *)
Fixpoint fill (bstr : jsstring) (n : nat) (u8arr : list N) : list N :=
  match n with
  | O => u8arr
  | S n' => fill bstr n' (store n' (charCodeAt bstr n') u8arr)
  end.

Definition invalidDataURL : jsstring := lit "Invalid data URL".

(** [arr[1]] passed to [atob] is converted to a string: [undefined]
    becomes the string "undefined". *)
Definition dataURLtoFile (dataurl filename : jsstring) : Thrown + File :=
  let arr := split COMMA dataurl in
  match match_colon_semi (nth 0 arr []) with
  | None => inl (ErrorObj invalidDataURL)
  | Some mime =>
      match atob (nth 1 arr (lit "undefined")) with
      | inl e => inl e
      | inr bstr =>
          let n := List.length bstr in
          let u8arr := repeat 0 n in
          inr (newFile (fill bstr n u8arr) filename mime)
      end
  end.

(** A handler that throws sets no state. *)
Definition handleUseResultAsInput (s : State) : State :=
  match generatedImage s with
  | Some img =>
      if truthy img then
        match dataURLtoFile img (lit "edited-image.png") with
        | inr newImageFile =>
            setClearCanvasCounter (fun c => c + 1)
              (setError None
                 (setPrompt []
                    (setMaskImage None
                       (setGeneratedImage None
                          (setStatus Masking
                             (setOriginalImage (Some newImageFile) s))))))
        | inl _ => s
        end
      else s
  | None => s
  end.

Definition incomplete : jsstring :=
  lit "Please upload an image, mask an area, and enter a prompt.".

Definition unknownError : jsstring := lit "An unknown error occurred.".

Definition isSome {A} (o : option A) : bool :=
  match o with Some _ => true | None => false end.

(** [!originalImage || !maskImage || !prompt.trim()]. *)
Definition guard (s : State) : bool :=
  negb (isSome (originalImage s)) || negb (truthy_opt (maskImage s))
  || negb (truthy (trim (prompt s))).

(** [error.message || 'An unknown error occurred.']. *)
Definition errorMessage (e : Thrown) : jsstring :=
  match message_of e with
  | Some m => if truthy m then m else unknownError
  | None => unknownError
  end.

(** [handleGenerate], run with the values of the render [s] in which the
    handler was created. *)
Definition handleGenerate (s : State) : Prog State unit :=
  if guard s then SetState (setError (Some incomplete)) (Ret tt)
  else
    match originalImage s, maskImage s with
    | Some originalImage, Some maskImage =>
        SetState (setStatus Loading)
          (SetState (setError None)
             (SetState (setGeneratedImage None)
                (try_catch
                   (r <- fileToBase64 originalImage ;;
                    let maskImageBase64 :=
                      nth_error (split COMMA maskImage) 1 in
                    result <- generateInpaintedImage (base64 r)
                                (fileMimeType r) maskImageBase64 (prompt s) ;;
                    SetState
                      (setGeneratedImage
                         (Some (lit "data:image/png;base64," ++ result)))
                      (SetState (setStatus Done) (Ret tt)))
                   (fun e =>
                      ConsoleError [LogThrown e]
                        (SetState (setError (Some (errorMessage e)))
                           (SetState (setStatus Error) (Ret tt)))))))
    | _, _ => Ret tt
    end.

(** The three states through which [handleGenerate] takes a render [s]:
    while the calls are awaited, after a result [d], after a failure
    [e]. *)
Definition loading (s : State) : State :=
  setGeneratedImage None (setError None (setStatus Loading s)).

Definition succeeded (d : jsstring) (s : State) : State :=
  setStatus Done
    (setGeneratedImage (Some (lit "data:image/png;base64," ++ d)) s).

Definition failed (e : Thrown) (s : State) : State :=
  setStatus Error (setError (Some (errorMessage e)) s).

(** [status === Status.Loading || !maskImage || !prompt.trim()]. *)
Definition isGenerateDisabled (s : State) : bool :=
  Status_eqb (status s) Loading || negb (truthy_opt (maskImage s))
  || negb (truthy (trim (prompt s))).


(** What the user and the component tree can make [App] do. *)
Inductive Action :=
| ImageUpload (file : option File)
| MaskChange (maskDataUrl : jsstring)
| ClearMask
| StartOver
| UseResultAsInput
| PromptChange (value : jsstring)
| BrushSizeChange (value : float)
| Generate.

(** One action run to its end; [Generate] is awaited in world [w]. *)
Definition step (w : World) (a : Action) (s : State) : State :=
  match a with
  | ImageUpload file => handleImageUpload file s
  | MaskChange url => handleMaskChange url s
  | ClearMask => handleClearMask s
  | StartOver => handleStartOver s
  | UseResultAsInput => handleUseResultAsInput s
  | PromptChange v => setPrompt v s
  | BrushSizeChange v => setBrushSize v s
  | Generate => final (run w (handleGenerate s) s)
  end.

(** Actions in order, each with the world in which it runs. *)
Fixpoint steps (acts : list (World * Action)) (s : State) : State :=
  match acts with
  | [] => s
  | (w, a) :: rest => steps rest (step w a s)
  end.



End App.

(* ================================================================== *)
(** * components/MaskingCanvas *)
(* ================================================================== *)

Module MaskingCanvas.

Import Js.
Open Scope N_scope.

(** JavaScript numbers are IEEE 754 doubles. *)
Record Point := { x : float; y : float }.

Record MouseEvent := { clientX : float; clientY : float }.

(** The loaded [Image]: its identity and intrinsic size. *)
Record Image := {
  src : jsstring;
  image_width : float;
  image_height : float
}.

Record Container := { offsetWidth : float; offsetHeight : float }.

Inductive LineCap := butt | round | square.
Inductive LineJoin := bevel | roundJoin | miter.

(** What the code does to a canvas: assignments to its [width] and
    [height], and the calls and assignments on its 2D context. *)
Inductive Op :=
| SetWidth (v : float)
| SetHeight (v : float)
| StrokeStyle (color : jsstring)
| LineWidth (w : float)
| SetLineCap (c : LineCap)
| SetLineJoin (j : LineJoin)
| BeginPath
| MoveTo (px py : float)
| LineTo (px py : float)
| Stroke
| ClosePath
| ClearRect (px py : float) (w h : N)
| DrawImage (image : Image) (dx dy dw dh : float).

(** The operations that change pixels of the canvas bitmap: painting,
    clearing, and resizing (which resets the bitmap). *)
Definition mutates (o : Op) : bool :=
  match o with
  | SetWidth _ | SetHeight _ | Stroke | ClearRect _ _ _ _
  | DrawImage _ _ _ _ _ => true
  | _ => false
  end.

(** The integer part of a double; [None] for NaN and the infinities. *)
Definition truncate (f : float) : option Z :=
  match Prim2SF f with
  | S754_zero _ => Some 0%Z
  | S754_finite sign m e =>
      let magnitude :=
        match e with
        | Zneg k => Z.div (Zpos m) (Z.pow 2 (Zpos k))
        | _ => Z.mul (Zpos m) (Z.pow 2 e)
        end in
      Some (if sign then Z.opp magnitude else magnitude)
  | _ => None
  end.

(** The value of a double when it is a whole number that is not
    negative. *)
Definition wholeNumber (f : float) : option N :=
  match Prim2SF f with
  | S754_zero _ => Some 0
  | S754_finite false m e =>
      match e with
      | Zneg k =>
          if Z.eqb (Z.modulo (Zpos m) (Z.pow 2 (Zpos k))) 0
          then Some (Z.to_N (Z.div (Zpos m) (Z.pow 2 (Zpos k))))
          else None
      | _ => Some (Z.to_N (Z.mul (Zpos m) (Z.pow 2 e)))
      end
  | _ => None
  end.

(** [canvas.width = v]: the attribute is an [unsigned long] limited to
    non-negative numbers.  The double is converted as Web IDL says
    (truncated, then reduced modulo 2^32; NaN and the infinities give 0),
    and a result above 2^31 - 1 is replaced by the default of the
    attribute. *)
Definition toCanvasSize (default : N) (v : float) : N :=
  let n :=
    match truncate v with
    | Some z => Z.to_N (Z.modulo z (Z.pow 2 32))
    | None => 0
    end in
  if n <=? 2147483647 then n else default.

(** A mounted canvas element: the size of its bitmap, whether
    [getContext('2d')] gives a context, where its box lies in the
    viewport, and what has been done to it, oldest first. *)
Record Canvas := {
  width : N;
  height : N;
  context2d : bool;
  rectLeft : float;
  rectTop : float;
  ops : list Op
}.

Definition setWidth (v : float) (c : Canvas) : Canvas :=
  {| width := toCanvasSize 300 v; height := height c;
     context2d := context2d c; rectLeft := rectLeft c; rectTop := rectTop c;
     ops := ops c ++ [SetWidth v] |}.

Definition setHeight (v : float) (c : Canvas) : Canvas :=
  {| width := width c; height := toCanvasSize 150 v;
     context2d := context2d c; rectLeft := rectLeft c; rectTop := rectTop c;
     ops := ops c ++ [SetHeight v] |}.

(** Calls on the 2D context of [c]. *)
Definition call (os : list Op) (c : Canvas) : Canvas :=
  {| width := width c; height := height c; context2d := context2d c;
     rectLeft := rectLeft c; rectTop := rectTop c; ops := ops c ++ os |}.

(** A callback given to [setTimeout] by [image.onload]. *)
Record Timer := {
  timer_image : Image;
  newWidth : float;
  newHeight : float
}.

(** The component: its props, its refs ([None] is a [null] ref), its
    state cells, the timers not yet run, and the arguments with which it
    has called [onMaskChange], oldest first. *)
Record State := {
  brushSize : float;
  brushColor : jsstring;
  container : option Container;
  imageCanvas : option Canvas;
  drawingCanvas : option Canvas;
  isDrawing : bool;
  lastPoint : option Point;
  dimensions : float * float;
  timers : list Timer;
  maskChanges : list jsstring
}.

Definition setIsDrawing (v : bool) (s : State) : State :=
  {| brushSize := brushSize s; brushColor := brushColor s;
     container := container s; imageCanvas := imageCanvas s;
     drawingCanvas := drawingCanvas s; isDrawing := v;
     lastPoint := lastPoint s; dimensions := dimensions s;
     timers := timers s; maskChanges := maskChanges s |}.

Definition setLastPoint (v : option Point) (s : State) : State :=
  {| brushSize := brushSize s; brushColor := brushColor s;
     container := container s; imageCanvas := imageCanvas s;
     drawingCanvas := drawingCanvas s; isDrawing := isDrawing s;
     lastPoint := v; dimensions := dimensions s;
     timers := timers s; maskChanges := maskChanges s |}.

Definition setDimensions (v : float * float) (s : State) : State :=
  {| brushSize := brushSize s; brushColor := brushColor s;
     container := container s; imageCanvas := imageCanvas s;
     drawingCanvas := drawingCanvas s; isDrawing := isDrawing s;
     lastPoint := lastPoint s; dimensions := v;
     timers := timers s; maskChanges := maskChanges s |}.

Definition setImageCanvas (v : option Canvas) (s : State) : State :=
  {| brushSize := brushSize s; brushColor := brushColor s;
     container := container s; imageCanvas := v;
     drawingCanvas := drawingCanvas s; isDrawing := isDrawing s;
     lastPoint := lastPoint s; dimensions := dimensions s;
     timers := timers s; maskChanges := maskChanges s |}.

Definition setDrawingCanvas (v : option Canvas) (s : State) : State :=
  {| brushSize := brushSize s; brushColor := brushColor s;
     container := container s; imageCanvas := imageCanvas s;
     drawingCanvas := v; isDrawing := isDrawing s;
     lastPoint := lastPoint s; dimensions := dimensions s;
     timers := timers s; maskChanges := maskChanges s |}.

Definition setTimers (v : list Timer) (s : State) : State :=
  {| brushSize := brushSize s; brushColor := brushColor s;
     container := container s; imageCanvas := imageCanvas s;
     drawingCanvas := drawingCanvas s; isDrawing := isDrawing s;
     lastPoint := lastPoint s; dimensions := dimensions s;
     timers := v; maskChanges := maskChanges s |}.

Definition onMaskChange (maskDataUrl : jsstring) (s : State) : State :=
  {| brushSize := brushSize s; brushColor := brushColor s;
     container := container s; imageCanvas := imageCanvas s;
     drawingCanvas := drawingCanvas s; isDrawing := isDrawing s;
     lastPoint := lastPoint s; dimensions := dimensions s;
     timers := timers s; maskChanges := maskChanges s ++ [maskDataUrl] |}.

(** The display size [image.onload] computes for a container. *)
Definition displaySize (c : Container) (image : Image) : float * float :=
  let containerWidth := offsetWidth c in
  let aspectRatio := (image_width image / image_height image)%float in
  let newWidth := containerWidth in
  let newHeight := (containerWidth / aspectRatio)%float in
  if (offsetHeight c <? newHeight)%float && (0 <? offsetHeight c)%float
  then ((offsetHeight c * aspectRatio)%float, offsetHeight c)
  else (newWidth, newHeight).

(** [image.onload] of [drawImage]. *)
Definition drawImage_onload (image : Image) (s : State) : State :=
  match container s with
  | None => s
  | Some c =>
      let '(w, h) := displaySize c image in
      setTimers
        (timers s ++ [{| timer_image := image; newWidth := w; newHeight := h |}])
        (setDimensions (w, h) s)
  end.

(** The callback of [setTimeout] in [drawImage]. *)
Definition drawImage_timeout (t : Timer) (s : State) : State :=
  match imageCanvas s, drawingCanvas s with
  | Some imageCanvas, Some drawingCanvas =>
      if context2d imageCanvas then
        let imageCanvas :=
          setHeight (newHeight t) (setWidth (newWidth t) imageCanvas) in
        let drawingCanvas :=
          setHeight (newHeight t) (setWidth (newWidth t) drawingCanvas) in
        let imageCanvas :=
          call [DrawImage (timer_image t) 0 0 (newWidth t) (newHeight t)]
            imageCanvas in
        setDrawingCanvas (Some drawingCanvas)
          (setImageCanvas (Some imageCanvas) s)
      else s
  | _, _ => s
  end.

Definition clearCanvas (s : State) : State :=
  match drawingCanvas s with
  | Some canvas =>
      if context2d canvas then
        onMaskChange []
          (setDrawingCanvas
             (Some (call [ClearRect 0 0 (width canvas) (height canvas)] canvas))
             s)
      else s
  | None => s
  end.

(** The effect on [clearCounter]. *)
Definition clearEffect (clearCounter : N) (s : State) : State :=
  if 0 <? clearCounter then clearCanvas s else s.

Definition getCoordinates (event : MouseEvent) (s : State) : option Point :=
  match drawingCanvas s with
  | None => None
  | Some canvas =>
      Some {| x := (clientX event - rectLeft canvas)%float;
              y := (clientY event - rectTop canvas)%float |}
  end.

Definition startDrawing (event : MouseEvent) (s : State) : State :=
  match getCoordinates event s with
  | None => s
  | Some coords => setLastPoint (Some coords) (setIsDrawing true s)
  end.

(** The context calls of one [draw]. *)
Definition segment (brushColor : jsstring) (brushSize : float)
    (lastPoint coords : Point) : list Op :=
  [ StrokeStyle brushColor; LineWidth brushSize;
    SetLineCap round; SetLineJoin roundJoin;
    BeginPath; MoveTo (x lastPoint) (y lastPoint);
    LineTo (x coords) (y coords); Stroke; ClosePath ].

Definition draw (event : MouseEvent) (s : State) : State :=
  if negb (isDrawing s) then s
  else
    match getCoordinates event s, lastPoint s, drawingCanvas s with
    | Some coords, Some lastPoint, Some canvas =>
        if context2d canvas then
          setLastPoint (Some coords)
            (setDrawingCanvas
               (Some (call (segment (brushColor s) (brushSize s)
                              lastPoint coords) canvas))
               s)
        else s
    | _, _, _ => s
    end.

Section Serialize.

(** [canvas.toDataURL()]: the PNG of the bitmap as a data URL.  The
    encoder is the browser's. *)
Variable toDataURL : Canvas -> jsstring.

Definition stopDrawing (s : State) : State :=
  if negb (isDrawing s) then s
  else
    let s := setLastPoint None (setIsDrawing false s) in
    match drawingCanvas s with
    | Some canvas => onMaskChange (toDataURL canvas) s
    | None => s
    end.

(** What happens to the component. *)
Inductive Event :=
| MouseDown (e : MouseEvent)
| MouseMove (e : MouseEvent)
| MouseUp
| MouseLeave
| ImageLoad (image : Image)
| Timeout
| ClearCounter (clearCounter : N).

Definition step (ev : Event) (s : State) : State :=
  match ev with
  | MouseDown e => startDrawing e s
  | MouseMove e => draw e s
  | MouseUp => stopDrawing s
  | MouseLeave => stopDrawing s
  | ImageLoad image => drawImage_onload image s
  | Timeout =>
      match timers s with
      | t :: rest => drawImage_timeout t (setTimers rest s)
      | [] => s
      end
  | ClearCounter n => clearEffect n s
  end.

(** The events of a list, oldest first. *)
Fixpoint steps (evs : list Event) (s : State) : State :=
  match evs with
  | [] => s
  | ev :: evs' => steps evs' (step ev s)
  end.

End Serialize.

(** What has been done to the canvas of a ref. *)
Definition opsOf (c : option Canvas) : list Op :=
  match c with Some canvas => ops canvas | None => [] end.

(** The operations that came to a canvas between two states of its
    ref. *)
Definition added (before after : option Canvas) : list Op :=
  skipn (List.length (opsOf before)) (opsOf after).

(** The calls with which [draw] paints a stroke. *)
Definition isStrokeOp (o : Op) : bool :=
  match o with
  | StrokeStyle _ | LineWidth _ | SetLineCap _ | SetLineJoin _
  | BeginPath | MoveTo _ _ | LineTo _ _ | Stroke | ClosePath => true
  | _ => false
  end.

Definition isDrawImage (o : Op) : bool :=
  match o with DrawImage _ _ _ _ _ => true | _ => false end.

Definition isPointer (ev : Event) : bool :=
  match ev with
  | MouseDown _ | MouseMove _ | MouseUp | MouseLeave => true
  | _ => false
  end.

(** What one event can add to the drawing canvas: nothing, the segment
    of a [draw], the [clearRect] of [clearCanvas], or the two assignments
    of the timer of [drawImage]. *)
Inductive DrawingChange (ev : Event) (s : State) : list Op -> Prop :=
| Nothing : DrawingChange ev s []
| Segment e canvas last :
    ev = MouseMove e -> isDrawing s = true ->
    drawingCanvas s = Some canvas -> context2d canvas = true ->
    lastPoint s = Some last ->
    DrawingChange ev s
      (segment (brushColor s) (brushSize s) last
         {| x := (clientX e - rectLeft canvas)%float;
            y := (clientY e - rectTop canvas)%float |})
| Cleared n canvas :
    ev = ClearCounter n -> 0 < n -> drawingCanvas s = Some canvas ->
    DrawingChange ev s [ClearRect 0 0 (width canvas) (height canvas)]
| Resized t rest :
    ev = Timeout -> timers s = t :: rest ->
    DrawingChange ev s [SetWidth (newWidth t); SetHeight (newHeight t)].

(** The ref of the drawing canvas is set. *)
Definition isMounted (s : State) : bool :=
  match drawingCanvas s with Some _ => true | None => false end.

(** Event [ev] changes pixels of the mask bitmap in state [s]. *)
Definition mutated (toDataURL : Canvas -> jsstring) (ev : Event) (s : State)
  : bool :=
  existsb mutates
    (added (drawingCanvas s) (drawingCanvas (step toDataURL ev s))).

(** The pointer button is held over the drawing canvas: the last of the
    button and leave events so far is a press. *)
Fixpoint held (before : bool) (evs : list Event) : bool :=
  match evs with
  | [] => before
  | MouseDown _ :: evs' => held true evs'
  | MouseUp :: evs' => held false evs'
  | MouseLeave :: evs' => held false evs'
  | _ :: evs' => held before evs'
  end.

End MaskingCanvas.

(* ================================================================== *)
(** * Sample values *)
(* ================================================================== *)

Module Samples.

Import Js Dom Async.
Open Scope N_scope.

(** A file of 4 MiB and one byte. *)
Definition bigFile : File :=
  {| name := lit "room.png"; type := lit "image/png"; size := 4194305;
     bytes := repeat 0 (N.to_nat 4194305) |}.


(** A small image file. *)
Definition smallFile : File :=
  {| name := lit "room.png"; type := lit "image/png"; size := 3;
     bytes := [137; 80; 78] |}.

Definition pngBlob (d : option jsstring) : Blob :=
  {| blob_mimeType := Some (lit "image/png"); blob_data := d |}.

Definition inlinePart (d : option jsstring) : Part :=
  {| part_text := None; part_inlineData := Some (pngBlob d) |}.

Definition responseOf (ps : list Part) (t : option jsstring) : Response :=
  {| candidates :=
       Some [ {| candidate_content := Some {| content_parts := Some ps |} |} ];
     response_text := t |}.

(** A response that carries an image. *)
Definition imageResponse : Response :=
  responseOf [inlinePart (Some (lit "QUJD"))] None.

(** A response whose first inline part has no data and whose second one
    has. *)
Definition emptyThenImage : Response :=
  responseOf [inlinePart None; inlinePart (Some (lit "QUJD"))] None.

Definition quota : Thrown := Foreign (Some (lit "429 quota exceeded")) 1.

Definition answering (r : Response) : World :=
  {| gemini := fun _ => inr r; reader := fun _ => true |}.

Definition rejecting (e : Thrown) : World :=
  {| gemini := fun _ => inl e; reader := fun _ => true |}.

(** The state of [App] after an upload, a mask, a prompt and a
    generation that succeeded. *)
Definition doneState : App.State :=
  App.steps
    [ (answering imageResponse, App.ImageUpload (Some smallFile));
      (answering imageResponse,
       App.MaskChange (lit "data:image/png;base64,QUJD"));
      (answering imageResponse, App.PromptChange (lit "a velvet armchair"));
      (answering imageResponse, App.Generate) ]
    App.initial.

(** A mounted masking canvas: both canvases at their default size, their
    boxes at (10, 20) in the viewport, a container of 400 by 400, the
    brush of [App]. *)
Definition blank : MaskingCanvas.Canvas :=
  {| MaskingCanvas.width := 300; MaskingCanvas.height := 150;
     MaskingCanvas.context2d := true;
     MaskingCanvas.rectLeft := 10%float; MaskingCanvas.rectTop := 20%float;
     MaskingCanvas.ops := [] |}.

Definition mounted : MaskingCanvas.State :=
  {| MaskingCanvas.brushSize := 40%float;
     MaskingCanvas.brushColor := lit "#FFFFFF";
     MaskingCanvas.container :=
       Some {| MaskingCanvas.offsetWidth := 400%float;
               MaskingCanvas.offsetHeight := 400%float |};
     MaskingCanvas.imageCanvas := Some blank;
     MaskingCanvas.drawingCanvas := Some blank;
     MaskingCanvas.isDrawing := false;
     MaskingCanvas.lastPoint := None;
     MaskingCanvas.dimensions := (0%float, 0%float);
     MaskingCanvas.timers := [];
     MaskingCanvas.maskChanges := [] |}.

(** A photo of 300 by 200 pixels. *)
Definition photo : MaskingCanvas.Image :=
  {| MaskingCanvas.src := lit "blob:room";
     MaskingCanvas.image_width := 300%float;
     MaskingCanvas.image_height := 200%float |}.

(** A stand-in for the PNG encoder of the browser. *)
Definition sampleDataURL (c : MaskingCanvas.Canvas) : jsstring :=
  lit "data:image/png;base64,"
  ++ base64_encode [N.of_nat (List.length (MaskingCanvas.ops c)) mod 256].

Definition at_ (x y : float) : MaskingCanvas.MouseEvent :=
  {| MaskingCanvas.clientX := x; MaskingCanvas.clientY := y |}.

(** One stroke: press, move, release. *)
Definition oneStroke : list MaskingCanvas.Event :=
  [ MaskingCanvas.MouseDown (at_ 110 120);
    MaskingCanvas.MouseMove (at_ 130 125);
    MaskingCanvas.MouseUp ].

(** The state of [App] before the generation of [doneState]. *)
Definition readyState : App.State :=
  App.steps
    [ (answering imageResponse, App.ImageUpload (Some smallFile));
      (answering imageResponse,
       App.MaskChange (lit "data:image/png;base64,QUJD"));
      (answering imageResponse, App.PromptChange (lit "a velvet armchair")) ]
    App.initial.

End Samples.

(* ================================================================== *)
(** * What [App] renders *)
(* ================================================================== *)

Module AppView.

Import Js Dom Async Gemini App.
Open Scope N_scope.

(** [originalImageURL] is [URL.createObjectURL(originalImage)] when there
    is an original image, a blob URL and so a non-empty string, and
    [null] otherwise: as a condition it is true exactly when
    [originalImage] is set. *)
Definition originalImageURL (s : State) : bool := isSome (originalImage s).

(** [status === Status.Idle && (...upload panel...)]. *)
Definition showUpload (s : State) : bool := Status_eqb (status s) Idle.

(** [(status === Status.Masking || status === Status.Loading ||
    status === Status.Done || status === Status.Error) && originalImageURL
    && (...editor...)]. *)
Definition showEditor (s : State) : bool :=
  (Status_eqb (status s) Masking || Status_eqb (status s) Loading
   || Status_eqb (status s) Done || Status_eqb (status s) Error)
  && originalImageURL s.

(** The four contents of the result area of the editor. *)
Definition showSpinner (s : State) : bool := Status_eqb (status s) Loading.

Definition showFailure (s : State) : bool :=
  Status_eqb (status s) Error && truthy_opt (error s).

Definition showResult (s : State) : bool :=
  truthy_opt (generatedImage s) && Status_eqb (status s) Done.

Definition showPlaceholder (s : State) : bool :=
  negb (Status_eqb (status s) Loading) && negb (Status_eqb (status s) Error)
  && negb (truthy_opt (generatedImage s)).

(** [status === Status.Idle && error && (...message...)]. *)
Definition showIdleError (s : State) : bool :=
  Status_eqb (status s) Idle && truthy_opt (error s).

(** How many of some conditions hold. *)
Definition shown (conditions : list bool) : nat :=
  List.length (filter (fun b => b) conditions).

(** What the handlers keep true of the cells of [App]. *)
Definition consistent (s : State) : Prop :=
  (status s = Idle <-> originalImage s = None)
  /\ (generatedImage s <> None -> status s = Done)
  /\ (status s = Done ->
      exists d, d <> []
        /\ generatedImage s = Some (lit "data:image/png;base64," ++ d))
  /\ (status s = Error -> exists m, m <> [] /\ error s = Some m).

(** The runs of [handleGenerate] once its guard lets it pass. *)
Inductive GenerateRun (w : World) (s : State) (f : File)
  : list (Effect * State) * State * Outcome unit -> Prop :=
| ReadFailed :
    reader w f = false ->
    GenerateRun w s f
      ([(EReadAsDataURL f, loading s);
        (EConsoleError [LogThrown ProgressEvent], loading s)],
       failed ProgressEvent (loading s), Returned tt)
| Generated req d :
    reader w f = true ->
    GenerateRun w s f
      ([(EReadAsDataURL f, loading s); (EGenerateContent req, loading s)],
       succeeded d (loading s), Returned tt)
| GenerationFailed req e :
    reader w f = true ->
    GenerateRun w s f
      ([(EReadAsDataURL f, loading s); (EGenerateContent req, loading s);
        (EConsoleError (failureLog e), loading s);
        (EConsoleError [LogThrown e], loading s)],
       failed e (loading s), Returned tt).

End AppView.

(* ================================================================== *)
(** * [App] between its awaits *)
(* ================================================================== *)

(** [handleGenerate] is an [async] function: it runs up to an [await],
    and goes on when the awaited promise settles.  In between the page
    answers to the user, and the handlers that run then see and set the
    same cells.  Here every call of [handleGenerate] that is past its
    guard is kept with what it still holds from the render that created
    it, and the end of a read and the answer of the service are events
    of their own. *)
Module Live.

Import Js Dom Async Gemini App AppView.
Open Scope N_scope.

(** What a promise is rejected with and a [catch] receives: a value with
    properties, as [Thrown] has them, or [null] or [undefined]. *)
Inductive Raised :=
| Object (e : Thrown)
| Nullish.

(** An argument of [console.error]. *)
Inductive Logged :=
| Text (s : jsstring)
| Value (r : Raised).

(** What the component does outside: [reader.readAsDataURL(file)],
    [ai.models.generateContent(...)] and [console.error(...)]. *)
Inductive Output :=
| Read (file : File)
| Sent (req : Request)
| Console (args : list Logged).

(** A call of [handleGenerate] past its guard.  While the read is
    awaited it holds the [originalImage], the [maskImage] and the
    [prompt] of its render; while the service is awaited, the request.
    [Settled]: the function has returned.  [Rejected]: its [catch] block
    has thrown, so the promise of the call is rejected.  [Stuck]: it
    awaits a promise that never settles, [reader.onload] having
    thrown. *)
Inductive Task :=
| Reading (originalImage : File) (maskImage prompt : jsstring)
| Requesting (req : Request)
| Settled
| Rejected
| Stuck.

Record Component := {
  cells : App.State;
  calls : list Task;
  outside : list Output
}.

Definition initial : Component :=
  {| cells := App.initial; calls := []; outside := [] |}.

Definition setCells (f : App.State -> App.State) (c : Component)
  : Component :=
  {| cells := f (cells c); calls := calls c; outside := outside c |}.

Definition emit (o : list Output) (c : Component) : Component :=
  {| cells := cells c; calls := calls c; outside := outside c ++ o |}.

Definition addCall (t : Task) (c : Component) : Component :=
  {| cells := cells c; calls := calls c ++ [t]; outside := outside c |}.

Fixpoint replace (i : nat) (t : Task) (ts : list Task) : list Task :=
  match ts, i with
  | [], _ => []
  | _ :: rest, O => t :: rest
  | t0 :: rest, S i' => t0 :: replace i' t rest
  end.

Definition setCall (i : nat) (t : Task) (c : Component) : Component :=
  {| cells := cells c; calls := replace i t (calls c);
     outside := outside c |}.

(** [handleGenerate] up to its first [await]: the guard, the three
    setters, and the call of [fileToBase64], which starts the read. *)
Definition invoke (c : Component) : Component :=
  let s := cells c in
  if guard s then setCells (setError (Some incomplete)) c
  else
    match originalImage s, maskImage s with
    | Some originalImage, Some maskImage =>
        emit [Read originalImage]
          (addCall (Reading originalImage maskImage (prompt s))
             (setCells loading c))
    | _, _ => c
    end.

(** The [catch] block of [handleGenerate] in call [i]:
    [console.error(error)], then [setError(error.message || ...)] and
    [setStatus(Status.Error)].  On [null] and [undefined] the read of
    [error.message] throws a [TypeError] before any setter is called. *)
Definition catchBlock (i : nat) (error : Raised) (c : Component)
  : Component :=
  let c := emit [Console [Value error]] c in
  match error with
  | Object e => setCall i Settled (setCells (failed e) c)
  | Nullish => setCall i Rejected c
  end.

(** The [catch] block of [generateInpaintedImage], which logs and
    throws again. *)
Definition serviceLog (error : Raised) : list Logged :=
  [Text (lit "Gemini API call failed:"); Value error].

(** [reader.onload] of call [i], and what [handleGenerate] does once
    the promise of [fileToBase64] is resolved: it splits the mask and
    calls [generateInpaintedImage], which sends the request. *)
Definition readLoaded (i : nat) (c : Component) : Component :=
  match nth_error (calls c) i with
  | Some (Reading originalImage maskImage prompt) =>
      match onload (dataURLofFile originalImage) with
      | Some r =>
          let maskImageBase64 := nth_error (split COMMA maskImage) 1 in
          let req := request (base64 r) (fileMimeType r) maskImageBase64
                       prompt in
          emit [Sent req] (setCall i (Requesting req) c)
      | None => setCall i Stuck c
      end
  | _ => c
  end.

(** [reader.onerror] of call [i]: the promise is rejected with the
    event. *)
Definition readFailed (i : nat) (c : Component) : Component :=
  match nth_error (calls c) i with
  | Some (Reading _ _ _) => catchBlock i (Object ProgressEvent) c
  | _ => c
  end.

(** The promise of [generateContent] of call [i] is resolved with
    [response]; [extractImage] returns or throws. *)
Definition answered (i : nat) (response : Response) (c : Component)
  : Component :=
  match nth_error (calls c) i with
  | Some (Requesting _) =>
      match extractImage (S := App.State) response with
      | Ret result => setCall i Settled (setCells (succeeded result) c)
      | Throw e =>
          catchBlock i (Object e) (emit [Console (serviceLog (Object e))] c)
      | _ => c
      end
  | _ => c
  end.

(** The promise of [generateContent] of call [i] is rejected. *)
Definition refused (i : nat) (error : Raised) (c : Component) : Component :=
  match nth_error (calls c) i with
  | Some (Requesting _) =>
      catchBlock i error (emit [Console (serviceLog error)] c)
  | _ => c
  end.

Inductive Event :=
| Handler (a : Action)
| Onload (call : nat)
| Onerror (call : nat)
| Resolved (call : nat) (response : Response)
| RejectedWith (call : nat) (error : Raised).

Definition handler (a : Action) (c : Component) : Component :=
  match a with
  | ImageUpload file => setCells (handleImageUpload file) c
  | MaskChange maskDataUrl => setCells (handleMaskChange maskDataUrl) c
  | ClearMask => setCells handleClearMask c
  | StartOver => setCells handleStartOver c
  | UseResultAsInput => setCells handleUseResultAsInput c
  | PromptChange value => setCells (setPrompt value) c
  | BrushSizeChange value => setCells (setBrushSize value) c
  | Generate => invoke c
  end.

(** One turn of the event loop.  An event of a call that does not await
    it finds nothing to continue. *)
Definition step (ev : Event) (c : Component) : Component :=
  match ev with
  | Handler a => handler a c
  | Onload i => readLoaded i c
  | Onerror i => readFailed i c
  | Resolved i response => answered i response c
  | RejectedWith i error => refused i error c
  end.

Definition steps (evs : list Event) (c : Component) : Component :=
  fold_left (fun c ev => step ev c) evs c.

(** The controls the render of [s] offers: the file input in the upload
    panel; the canvas, the brush, the prompt, 'Clear mask' and 'Start a
    New Project' in the editor; 'Continue Editing' beside a result; and
    for [handleGenerate] the main button unless disabled, or 'Try
    Again' in the failure. *)
Definition offered (a : Action) (s : App.State) : bool :=
  match a with
  | ImageUpload _ => showUpload s
  | MaskChange _ | ClearMask | PromptChange _ | BrushSizeChange _
  | StartOver => showEditor s
  | UseResultAsInput => showEditor s && showResult s
  | Generate =>
      showEditor s && (negb (isGenerateDisabled s) || showFailure s)
  end.

(** Every handler of the run is one the page offered, and every other
    event finds the call that awaits it. *)
Definition awaited (ev : Event) (c : Component) : bool :=
  match ev with
  | Handler a => offered a (cells c)
  | Onload i | Onerror i =>
      match nth_error (calls c) i with
      | Some (Reading _ _ _) => true
      | _ => false
      end
  | Resolved i _ | RejectedWith i _ =>
      match nth_error (calls c) i with
      | Some (Requesting _) => true
      | _ => false
      end
  end.

Fixpoint possible (evs : list Event) (c : Component) : bool :=
  match evs with
  | [] => true
  | ev :: rest => awaited ev c && possible rest (step ev c)
  end.

Definition isRead (o : Output) : bool :=
  match o with Read _ => true | _ => false end.

Definition isSent (o : Output) : bool :=
  match o with Sent _ => true | _ => false end.

Definition isReading (t : Task) : bool :=
  match t with Reading _ _ _ => true | _ => false end.

Definition count {A} (p : A -> bool) (l : list A) : nat :=
  List.length (filter p l).

(** What the reads and the requests add up to. *)
Definition accounted (c : Component) : Prop :=
  count isRead (outside c) = List.length (calls c)
  /\ (count isSent (outside c) + count isReading (calls c)
      <= List.length (calls c))%nat.

(** What the handlers and the calls of [handleGenerate] keep true of the
    cells of [App], however they interleave. *)
Definition kept (s : App.State) : Prop :=
  (status s = Idle -> originalImage s = None /\ generatedImage s = None)
  /\ (status s = Masking \/ status s = Loading ->
      originalImage s <> None /\ generatedImage s = None)
  /\ (status s = Done ->
      exists d, d <> []
        /\ generatedImage s = Some (lit "data:image/png;base64," ++ d))
  /\ (status s = Error -> exists m, m <> [] /\ error s = Some m).

(** The events of a call of [handleGenerate] that nothing interrupts, in
    a world [w] that answers at once. *)
Definition uninterrupted (w : World) (c : Component) : list Event :=
  let s := cells c in
  let i := List.length (calls c) in
  Handler Generate ::
  if guard s then []
  else
    match originalImage s, maskImage s with
    | Some originalImage, Some maskImage =>
        if reader w originalImage then
          Onload i ::
          match onload (dataURLofFile originalImage) with
          | Some r =>
              match gemini w (request (base64 r) (fileMimeType r)
                                (nth_error (split COMMA maskImage) 1)
                                (prompt s)) with
              | inl e => [RejectedWith i (Object e)]
              | inr response => [Resolved i response]
              end
          | None => []
          end
        else [Onerror i]
    | _, _ => []
    end.

End Live.

(* ================================================================== *)
(** * Strokes and sizes on the masking canvas *)
(* ================================================================== *)

Module CanvasSpec.

Import Js MaskingCanvas.
Open Scope N_scope.

(** The point [getCoordinates] gives for an event over canvas [c]. *)
Definition pointOf (c : Canvas) (e : MouseEvent) : Point :=
  {| x := (clientX e - rectLeft c)%float;
     y := (clientY e - rectTop c)%float |}.

(** The calls that paint the line through [from] and the points of
    [through], one [segment] for each pair of neighbours. *)
Fixpoint polyline (brushColor : jsstring) (brushSize : float) (from : Point)
    (through : list Point) : list Op :=
  match through with
  | [] => []
  | p :: rest =>
      segment brushColor brushSize from p
      ++ polyline brushColor brushSize p rest
  end.

(** The last point of a line. *)
Fixpoint lastOf (from : Point) (through : list Point) : Point :=
  match through with
  | [] => from
  | p :: rest => lastOf p rest
  end.

Definition isSome {A} (o : option A) : bool :=
  match o with Some _ => true | None => false end.

(** [isDrawing] and [lastPointRef] go together, and drawing needs the
    canvas. *)
Definition coherent (s : State) : Prop :=
  isDrawing s = isSome (lastPoint s)
  /\ (isDrawing s = true -> isMounted s = true).

(** The two layers have the same bitmap size. *)
Definition sameBitmapSize (s : State) : Prop :=
  match imageCanvas s, drawingCanvas s with
  | Some imageCanvas, Some drawingCanvas =>
      width imageCanvas = width drawingCanvas
      /\ height imageCanvas = height drawingCanvas
  | _, _ => True
  end.

(** The arguments of the [onMaskChange] calls made between two states. *)
Definition reports (before after : State) : list jsstring :=
  skipn (List.length (maskChanges before)) (maskChanges after).

Definition isStop (ev : Event) : bool :=
  match ev with MouseUp | MouseLeave => true | _ => false end.

End CanvasSpec.

(* ================================================================== *)
(** * [App] and its [MaskingCanvas] *)
(* ================================================================== *)

Module Wiring.

Import Js Dom Async App.

(** [App] passes [handleMaskChange] as [onMaskChange]: the reports of the
    canvas reach the state of [App] in order. *)
Definition deliver (reports : list jsstring) (s : State) : State :=
  fold_left (fun s maskDataUrl => handleMaskChange maskDataUrl s) reports s.

End Wiring.

(* ================================================================== *)
(** * More sample values *)
(* ================================================================== *)

Module MoreSamples.

Import Js Dom Async Samples.
Open Scope N_scope.



(** A text file whose type has a parameter. *)
Definition textFile : File :=
  {| name := lit "notes.txt"; type := lit "text/plain;charset=utf-8";
     size := 2; bytes := [104; 105] |}.

(** The actions that lead to [doneState]. *)
Definition doneActs : list (World * App.Action) :=
  [ (answering imageResponse, App.ImageUpload (Some smallFile));
    (answering imageResponse,
     App.MaskChange (lit "data:image/png;base64,QUJD"));
    (answering imageResponse, App.PromptChange (lit "a velvet armchair"));
    (answering imageResponse, App.Generate) ].

(** The two canvases after the photo has been fitted into a container
    of 400 by 400. *)
Definition fittedImageCanvas : MaskingCanvas.Canvas :=
  {| MaskingCanvas.width := 400; MaskingCanvas.height := 266;
     MaskingCanvas.context2d := true;
     MaskingCanvas.rectLeft := 10%float; MaskingCanvas.rectTop := 20%float;
     MaskingCanvas.ops :=
       [ MaskingCanvas.SetWidth 400;
         MaskingCanvas.SetHeight (400 / (300 / 200))%float;
         MaskingCanvas.DrawImage photo 0 0 400 (400 / (300 / 200))%float ] |}.

Definition fittedDrawingCanvas : MaskingCanvas.Canvas :=
  {| MaskingCanvas.width := 400; MaskingCanvas.height := 266;
     MaskingCanvas.context2d := true;
     MaskingCanvas.rectLeft := 10%float; MaskingCanvas.rectTop := 20%float;
     MaskingCanvas.ops :=
       [ MaskingCanvas.SetWidth 400;
         MaskingCanvas.SetHeight (400 / (300 / 200))%float ] |}.

(** The masking canvas with a resize waiting. *)
Definition resizing : MaskingCanvas.State :=
  MaskingCanvas.steps sampleDataURL
    (oneStroke ++ [MaskingCanvas.ImageLoad photo]) mounted.

(** 'Start a New Project' is clicked while the read of a generation is
    awaited; then the read ends. *)
Definition startedOver : list Live.Event :=
  [ Live.Handler (App.ImageUpload (Some smallFile));
    Live.Handler (App.MaskChange (lit "data:image/png;base64,QUJD"));
    Live.Handler (App.PromptChange (lit "a velvet armchair"));
    Live.Handler App.Generate;
    Live.Handler App.StartOver;
    Live.Onload 0 ].

(** A generation abandoned: after [startedOver] the call goes on to its
    end. *)
Definition abandoned : list Live.Event :=
  startedOver ++ [Live.Resolved 0 imageResponse].

(** Two generations in flight: the first is abandoned, a second one is
    started in a new project; the first succeeds, then the second
    fails. *)
Definition overtaken : list Live.Event :=
  [ Live.Handler (App.ImageUpload (Some smallFile));
    Live.Handler (App.MaskChange (lit "data:image/png;base64,QUJD"));
    Live.Handler (App.PromptChange (lit "a velvet armchair"));
    Live.Handler App.Generate;
    Live.Handler App.StartOver;
    Live.Handler (App.ImageUpload (Some smallFile));
    Live.Handler (App.MaskChange (lit "data:image/png;base64,QUJD"));
    Live.Handler (App.PromptChange (lit "a leather sofa"));
    Live.Handler App.Generate;
    Live.Onload 0;
    Live.Resolved 0 imageResponse;
    Live.Onload 1;
    Live.RejectedWith 1 (Live.Object quota) ].

(** The component with a request awaited. *)
Definition requesting : Live.Component :=
  Live.steps
    [ Live.Handler (App.ImageUpload (Some smallFile));
      Live.Handler (App.MaskChange (lit "data:image/png;base64,QUJD"));
      Live.Handler (App.PromptChange (lit "a velvet armchair"));
      Live.Handler App.Generate;
      Live.Onload 0 ]
    Live.initial.

End MoreSamples.

(* ================================================================== *)
(** * Facts about strings and base64 *)
(* ================================================================== *)

Module JsFacts.

Import Js.
Open Scope N_scope.

Ltac cases_if :=
  repeat match goal with
  | |- context [if ?b then _ else _] => destruct b eqn:?
  end.

(** Induction on a list three elements at a time. *)
Lemma list_ind3 {A} (P : list A -> Prop) :
  P [] -> (forall a, P [a]) -> (forall a b, P [a; b]) ->
  (forall a b c l, P l -> P (a :: b :: c :: l)) ->
  forall l, P l.
Proof.
  intros H0 H1 H2 H3. fix IH 1.
  intros [|a [|b [|c l]]];
    [apply H0 | apply H1 | apply H2 | apply H3, IH].
Qed.

Lemma split_not_nil sep s : split sep s <> [].
Proof.
  destruct s as [|c s]; simpl; [discriminate|].
  destruct (c =? sep); [discriminate|].
  destruct (split sep s); discriminate.
Qed.

Lemma split_without sep s : ~ In sep s -> split sep s = [s].
Proof.
  induction s as [|c s IH]; simpl; intros Hn; [reflexivity|].
  destruct (c =? sep) eqn:E.
  - apply N.eqb_eq in E. exfalso. apply Hn. now left.
  - rewrite IH; [reflexivity|]. intros Hin. apply Hn. now right.
Qed.

Lemma split_at sep a b :
  ~ In sep a -> split sep (a ++ sep :: b) = a :: split sep b.
Proof.
  induction a as [|c a IH]; simpl; intros Hn.
  - now rewrite N.eqb_refl.
  - destruct (c =? sep) eqn:E.
    + apply N.eqb_eq in E. exfalso. apply Hn. now left.
    + rewrite IH; [reflexivity|]. intros Hin. apply Hn. now right.
Qed.

(** The regular expression finds what lies between a colon and the next
    semicolon. *)
Lemma dot_until_semi_at m post :
  ~ In SEMI m -> forallb (fun c => negb (isLineTerminator c)) m = true ->
  dot_until_semi (m ++ SEMI :: post) = Some m.
Proof.
  induction m as [|c m IH]; simpl; intros Hn Hl.
  - reflexivity.
  - apply andb_true_iff in Hl. destruct Hl as [Hc Hl].
    destruct (c =? SEMI) eqn:E.
    + apply N.eqb_eq in E. exfalso. apply Hn. now left.
    + apply negb_true_iff in Hc. rewrite Hc, IH; auto.
Qed.

Lemma dot_until_semi_some s m :
  dot_until_semi s = Some m ->
  exists post, s = m ++ SEMI :: post
    /\ forallb (fun c => negb (isLineTerminator c)) m = true.
Proof.
  revert m. induction s as [|c s IH]; simpl; intros m H; [discriminate|].
  destruct (c =? SEMI) eqn:E.
  - injection H as <-. apply N.eqb_eq in E. subst c. now exists s.
  - destruct (isLineTerminator c) eqn:L; [discriminate|].
    destruct (dot_until_semi s) as [m'|] eqn:D; [|discriminate].
    injection H as <-. destruct (IH m' eq_refl) as [post [-> Hl]].
    exists post. simpl. now rewrite L, Hl.
Qed.

Lemma match_colon_semi_some s m :
  match_colon_semi s = Some m ->
  exists pre post, s = pre ++ COLON :: m ++ SEMI :: post
    /\ forallb (fun c => negb (isLineTerminator c)) m = true.
Proof.
  induction s as [|c s IH]; simpl; intros H; [discriminate|].
  destruct (c =? COLON) eqn:E.
  - destruct (dot_until_semi s) as [m'|] eqn:D.
    + injection H as <-. apply N.eqb_eq in E. subst c.
      destruct (dot_until_semi_some _ _ D) as [post [-> Hl]].
      now exists [], post.
    + destruct (IH H) as [pre [post [-> Hl]]].
      now exists (c :: pre), post.
  - destruct (IH H) as [pre [post [-> Hl]]].
    now exists (c :: pre), post.
Qed.

Lemma match_colon_semi_at pre m post :
  ~ In COLON pre -> ~ In SEMI m ->
  forallb (fun c => negb (isLineTerminator c)) m = true ->
  match_colon_semi (pre ++ COLON :: m ++ SEMI :: post) = Some m.
Proof.
  intros Hp Hm Hl. induction pre as [|c pre IH]; simpl.
  - now rewrite dot_until_semi_at.
  - destruct (c =? COLON) eqn:E.
    + apply N.eqb_eq in E. exfalso. apply Hp. now left.
    + apply IH. intros Hin. apply Hp. now right.
Qed.

(** ** Base64 *)

Lemma b64value_b64char v : v < 64 -> b64value (b64char v) = Some v.
Proof.
  intros H. unfold b64char. cases_if; unfold b64value; cases_if;
    first [ exfalso; lia | f_equal; lia ].
Qed.

Lemma b64char_not_equals v : b64char v <> EQUALS.
Proof. unfold b64char, EQUALS. cases_if; lia. Qed.

Lemma b64char_not_whitespace v : isAsciiWhitespace (b64char v) = false.
Proof. unfold b64char, isAsciiWhitespace. cases_if; lia. Qed.

Lemma b64char_not_comma v : b64char v <> COMMA.
Proof. unfold b64char, COMMA. cases_if; lia. Qed.

Lemma sextets_small bs :
  Forall (fun b => b < 256) bs -> Forall (fun v => v < 64) (sextets_of_bytes bs).
Proof.
  induction bs as [| a | a b | a b c l IH] using list_ind3; intros H.
  - constructor.
  - inversion_clear H. simpl. repeat constructor; lia.
  - inversion_clear H as [|? ? Ha H']. inversion_clear H'.
    simpl. repeat constructor; lia.
  - inversion_clear H as [|? ? Ha H1]. inversion_clear H1 as [|? ? Hb H2].
    inversion_clear H2 as [|? ? Hc H3].
    simpl. repeat (constructor; [lia|]). auto.
Qed.

Lemma bytes_of_sextets_of_bytes bs :
  Forall (fun b => b < 256) bs -> bytes_of_sextets (sextets_of_bytes bs) = bs.
Proof.
  induction bs as [| a | a b | a b c l IH] using list_ind3; intros H.
  - reflexivity.
  - inversion_clear H. simpl. f_equal. lia.
  - inversion_clear H as [|? ? Ha H']. inversion_clear H'.
    simpl. f_equal; [lia|]. f_equal. lia.
  - inversion_clear H as [|? ? Ha H1]. inversion_clear H1 as [|? ? Hb H2].
    inversion_clear H2 as [|? ? Hc H3].
    simpl. rewrite (IH H3). f_equal; [lia|]. f_equal; [lia|]. f_equal. lia.
Qed.

Lemma values_of_chars vs :
  Forall (fun v => v < 64) vs -> values_of (map b64char vs) = Some vs.
Proof.
  induction 1 as [|v vs Hv _ IH]; simpl; [reflexivity|].
  now rewrite (b64value_b64char v Hv), IH.
Qed.

(** The length of an encoding, with and without its padding. *)
Lemma padding_step n : padding (S (S (S n))) = padding n.
Proof.
  unfold padding.
  replace (S (S (S n))) with (n + 1 * 3)%nat by lia.
  now rewrite Nat.Div0.mod_add.
Qed.

Lemma encoding_length bs :
  Nat.modulo (List.length (sextets_of_bytes bs)
              + List.length (padding (List.length bs))) 4 = 0%nat
  /\ Nat.modulo (List.length (sextets_of_bytes bs)) 4 <> 1%nat.
Proof.
  induction bs as [| a | a b | a b c l IH] using list_ind3;
    try (split; [reflexivity | discriminate]).
  cbn [sextets_of_bytes List.length]. rewrite padding_step.
  destruct IH as [IH1 IH2]. split; lia.
Qed.

Lemma padding_cases n :
  padding n = [] \/ padding n = [EQUALS] \/ padding n = [EQUALS; EQUALS].
Proof.
  unfold padding. destruct (Nat.modulo n 3) as [|[|[|k]]]; auto.
Qed.

Lemma dropEquals_chars vs :
  dropEquals (rev (map b64char vs)) = rev (map b64char vs).
Proof.
  rewrite <- map_rev. destruct (rev vs) as [|v r]; [reflexivity|].
  simpl. destruct (b64char v =? EQUALS) eqn:E; [|reflexivity].
  apply N.eqb_eq in E. now apply b64char_not_equals in E.
Qed.

Lemma strip_padding_encoding vs n :
  Nat.modulo (List.length vs + List.length (padding n)) 4 = 0%nat ->
  strip_padding (map b64char vs ++ padding n) = map b64char vs.
Proof.
  intros H. unfold strip_padding.
  rewrite length_app, length_map, H. simpl Nat.eqb. cbv iota.
  rewrite rev_app_distr.
  destruct (padding_cases n) as [-> | [-> | ->]]; simpl.
  - now rewrite !dropEquals_chars, rev_involutive.
  - now rewrite dropEquals_chars, rev_involutive.
  - now rewrite rev_involutive.
Qed.

Lemma encoding_not_whitespace bs :
  filter (fun c => negb (isAsciiWhitespace c)) (base64_encode bs)
  = base64_encode bs.
Proof.
  unfold base64_encode. rewrite filter_app. f_equal.
  - induction (sextets_of_bytes bs) as [|v vs IH]; simpl; [reflexivity|].
    now rewrite b64char_not_whitespace, IH.
  - destruct (padding_cases (List.length bs)) as [-> | [-> | ->]];
      reflexivity.
Qed.

(** Decoding an encoding gives the bytes back. *)
Lemma decode_encode bs :
  Forall (fun b => b < 256) bs ->
  forgiving_base64_decode (base64_encode bs) = Some bs.
Proof.
  intros H. unfold forgiving_base64_decode.
  rewrite encoding_not_whitespace. unfold base64_encode.
  destruct (encoding_length bs) as [L1 L2].
  rewrite strip_padding_encoding by exact L1.
  rewrite length_map.
  destruct (Nat.eqb_spec (Nat.modulo (List.length (sextets_of_bytes bs)) 4) 1)
    as [E|_]; [contradiction|].
  rewrite values_of_chars by now apply sextets_small.
  now rewrite bytes_of_sextets_of_bytes.
Qed.

Lemma encoding_without_comma bs : ~ In COMMA (base64_encode bs).
Proof.
  unfold base64_encode. intros Hin. apply in_app_or in Hin.
  destruct Hin as [Hin|Hin].
  - apply in_map_iff in Hin. destruct Hin as [v [Hv _]].
    now apply b64char_not_comma in Hv.
  - destruct (padding_cases (List.length bs)) as [E | [E | E]];
      rewrite E in Hin; simpl in Hin; unfold EQUALS, COMMA in Hin;
      intuition discriminate.
Qed.

End JsFacts.

(* ================================================================== *)
(** * [generateInpaintedImage] *)
(* ================================================================== *)

Module GeminiFacts.

Import Js Dom Async Gemini Samples.
Open Scope N_scope.

Lemma find_first {A} (f : A -> bool) l x :
  find f l = Some x ->
  exists before after,
    l = before ++ x :: after /\ f x = true
    /\ forall y, In y before -> f y = false.
Proof.
  induction l as [|a l IH]; simpl; intros H; [discriminate|].
  destruct (f a) eqn:E.
  - injection H as <-. exists [], l. repeat split; auto.
    intros y [].
  - destruct (IH H) as [before [after [-> [Hx Hb]]]].
    exists (a :: before), after. repeat split; auto.
    intros y [<- | Hy]; auto.
Qed.

Lemma find_at {A} (f : A -> bool) before x after :
  f x = true -> (forall y, In y before -> f y = false) ->
  find f (before ++ x :: after) = Some x.
Proof.
  intros Hx. induction before as [|a before IH]; simpl; intros Hb.
  - now rewrite Hx.
  - rewrite (Hb a) by now left. apply IH. intros y Hy. apply Hb. now right.
Qed.

Lemma truthy_not_nil (s : jsstring) : truthy s = true <-> s <> [].
Proof. destruct s; simpl; split; congruence. Qed.

(** The code either returns or throws an [Error] once it has a
    response. *)
Lemma extractImage_cases {S} (response : Response) :
  (exists d, extractImage (S := S) response = Ret d
             /\ imageData (imagePart response) = Some d /\ d <> [])
  \/ (exists m, extractImage (S := S) response = Throw (ErrorObj m)
                /\ truthy_opt (imageData (imagePart response)) = false
                /\ m = match option_map trim (response_text response) with
                       | Some t => if truthy t then modelResponse t
                                   else noImageData
                       | None => noImageData
                       end).
Proof.
  unfold extractImage, blocked.
  destruct (imageData (imagePart response)) as [d|] eqn:E; simpl.
  - destruct (truthy d) eqn:T.
    + left. exists d. repeat split. now apply truthy_not_nil.
    + right.
      destruct (option_map trim (response_text response)) as [t|];
        [destruct (truthy t)|]; eexists; repeat split.
  - right.
    destruct (option_map trim (response_text response)) as [t|];
      [destruct (truthy t)|]; eexists; repeat split.
Qed.

Section Run.

Context {S : Type} (w : World) (s : S).
Variables (original : option jsstring) (mime : jsstring)
          (mask : option jsstring) (prompt : jsstring).

Let req := request original mime mask prompt.
Let call := generateInpaintedImage (S := S) original mime mask prompt.

Lemma run_rejected e :
  gemini w req = inl e ->
  run w call s
  = ([(EGenerateContent req, s); (EConsoleError (failureLog e), s)],
     s, Threw e).
Proof.
  intros H. unfold call, generateInpaintedImage. simpl.
  fold req. now rewrite H.
Qed.

Lemma run_returned response d :
  gemini w req = inr response -> extractImage (S := S) response = Ret d ->
  run w call s = ([(EGenerateContent req, s)], s, Returned d).
Proof.
  intros H E. unfold call, generateInpaintedImage. simpl.
  fold req. now rewrite H, E.
Qed.

Lemma run_threw response e :
  gemini w req = inr response -> extractImage (S := S) response = Throw e ->
  run w call s
  = ([(EGenerateContent req, s); (EConsoleError (failureLog e), s)],
     s, Threw e).
Proof.
  intros H E. unfold call, generateInpaintedImage. simpl.
  fold req. now rewrite H, E.
Qed.

(** Whatever the service does, the trace starts with the one request
    and holds no other. *)
Lemma requests_of_run :
  requests (trace (run w call s)) = [EGenerateContent req]
  /\ final (run w call s) = s.
Proof.
  destruct (gemini w req) as [e|response] eqn:G.
  - now rewrite (run_rejected e G).
  - destruct (extractImage_cases (S := S) response)
      as [[d [E _]] | [m [E _]]].
    + now rewrite (run_returned response d G E).
    + now rewrite (run_threw response _ G E).
Qed.

End Run.

(** C2: every invocation of [generateInpaintedImage] issues exactly one
    request to [ai.models.generateContent], whatever the service answers:
    there is no retry and no second request; and an error with which the
    call rejects is re-thrown to the caller unchanged. *)
Theorem generateInpaintedImage_one_request {S} (w : World) (s : S)
    (original : option jsstring) (mime : jsstring)
    (mask : option jsstring) (prompt : jsstring) :
  let req := request original mime mask prompt in
  let r := run w (generateInpaintedImage original mime mask prompt) s in
  requests (trace r) = [EGenerateContent req]
  /\ List.length (requests (trace r)) = 1%nat
  /\ forall e, gemini w req = inl e -> outcome r = Threw e.
Proof.
  intros req r.
  destruct (requests_of_run w s original mime mask prompt) as [H _].
  subst r req. rewrite H. repeat split.
  intros e G. now rewrite (run_rejected w s original mime mask prompt e G).
Qed.

Lemma generateInpaintedImage_one_request_witness :
  gemini (rejecting quota)
    (request (Some (lit "iVBO")) (lit "image/png") (Some (lit "QUJD"))
       (lit "a velvet armchair")) = inl quota
  /\ outcome (run (rejecting quota)
                (generateInpaintedImage (Some (lit "iVBO")) (lit "image/png")
                   (Some (lit "QUJD")) (lit "a velvet armchair")) tt)
     = Threw quota.
Proof.
  split; [reflexivity|].
  exact (proj2 (proj2 (generateInpaintedImage_one_request (rejecting quota) tt
                         (Some (lit "iVBO")) (lit "image/png")
                         (Some (lit "QUJD")) (lit "a velvet armchair")))
           quota eq_refl).
Defined.

(** C10: the request that [generateInpaintedImage] builds frames its
    parts in the order prompt text, original image, mask image; the mask
    part is declared [image/png] whatever the type of the original image;
    and IMAGE is the only response modality requested. *)
Theorem generateInpaintedImage_request_framing {S} (w : World) (s : S)
    (original : option jsstring) (mime : jsstring)
    (mask : option jsstring) (prompt : jsstring) :
  requests (trace (run w (generateInpaintedImage original mime mask prompt) s))
  = [EGenerateContent
       {| model := lit "gemini-2.5-flash-image";
          parts :=
            [ TextPart prompt;
              InlineDataPart {| mimeType := mime; data := original |};
              InlineDataPart {| mimeType := lit "image/png"; data := mask |} ];
          responseModalities := [IMAGE] |}].
Proof.
  exact (proj1 (requests_of_run w s original mime mask prompt)).
Qed.

(** C3, as the code has it: when the service answers, the result is the
    data of the first part of the first candidate that carries
    [inlineData], provided that data is a non-empty string; when there is
    no such part, or its data is missing or empty, the call throws an
    [Error] whose message holds the trimmed text of the response when
    that text is not empty and is 'Image generation failed: No image data
    received from the API.' otherwise.  Whatever is returned is the
    non-empty inline data of that first part. *)
Theorem generateInpaintedImage_result {S} (w : World) (s : S)
    (original : option jsstring) (mime : jsstring)
    (mask : option jsstring) (prompt : jsstring) (response : Response) :
  gemini w (request original mime mask prompt) = inr response ->
  let out :=
    outcome (run w (generateInpaintedImage original mime mask prompt) s) in
  (forall candidate others content before part after blob d,
      candidates response = Some (candidate :: others) ->
      candidate_content candidate = Some content ->
      content_parts content = Some (before ++ part :: after) ->
      (forall p, In p before -> part_inlineData p = None) ->
      part_inlineData part = Some blob ->
      blob_data blob = Some d -> d <> [] ->
      out = Returned d)
  /\ (truthy_opt (imageData (imagePart response)) = false ->
      out = Threw (ErrorObj
              match option_map trim (response_text response) with
              | Some t =>
                  if truthy t
                  then lit "Image generation failed. Model response: " ++ t
                  else lit "Image generation failed: No image data received from the API."
              | None =>
                  lit "Image generation failed: No image data received from the API."
              end))
  /\ (forall d, out = Returned d ->
      d <> []
      /\ exists candidate others content before part after blob,
          candidates response = Some (candidate :: others)
          /\ candidate_content candidate = Some content
          /\ content_parts content = Some (before ++ part :: after)
          /\ (forall p, In p before -> part_inlineData p = None)
          /\ part_inlineData part = Some blob
          /\ blob_data blob = Some d).
Proof.
  intros G out.
  assert (Hout : (exists d, out = Returned d
                    /\ imageData (imagePart response) = Some d /\ d <> [])
                 \/ (truthy_opt (imageData (imagePart response)) = false
                     /\ out = Threw (ErrorObj
                          match option_map trim (response_text response) with
                          | Some t => if truthy t then modelResponse t
                                      else noImageData
                          | None => noImageData
                          end))).
  { subst out.
    destruct (extractImage_cases (S := S) response)
      as [[d [E [Hd Hn]]] | [m [E [Hf ->]]]].
    - left. exists d.
      now rewrite (run_returned w s original mime mask prompt response d G E).
    - right. split; [exact Hf|].
      now rewrite (run_threw w s original mime mask prompt response _ G E). }
  split; [|split].
  - intros candidate others content before part after blob d
      Hc Hcont Hparts Hbefore Hblob Hdata Hd.
    assert (I : imageData (imagePart response) = Some d).
    { unfold imagePart. rewrite Hc, Hcont, Hparts.
      rewrite (find_at hasInlineData before part after).
      - unfold imageData. now rewrite Hblob.
      - unfold hasInlineData. now rewrite Hblob.
      - intros p Hp. unfold hasInlineData. now rewrite (Hbefore p Hp). }
    destruct Hout as [[d' [-> [I' _]]] | [Hf _]].
    + congruence.
    + rewrite I in Hf. simpl in Hf.
      apply truthy_not_nil in Hd. congruence.
  - intros Hf. destruct Hout as [[d [_ [I Hd]]] | [_ ->]]; [|reflexivity].
    rewrite I in Hf. simpl in Hf. apply truthy_not_nil in Hd. congruence.
  - intros d Hr. destruct Hout as [[d' [E [I Hd]]] | [_ E]];
      [|rewrite E in Hr; discriminate].
    rewrite E in Hr. injection Hr as <-. split; [exact Hd|].
    unfold imagePart in I.
    destruct (candidates response) as [[|candidate others]|] eqn:Hc;
      try discriminate.
    destruct (candidate_content candidate) as [content|] eqn:Hcont;
      try discriminate.
    destruct (content_parts content) as [ps|] eqn:Hparts; try discriminate.
    destruct (find hasInlineData ps) as [part|] eqn:F; try discriminate.
    destruct (find_first _ _ _ F) as [before [after [-> [Hx Hb]]]].
    simpl in I. destruct (part_inlineData part) as [blob|] eqn:Hblob;
      try discriminate.
    exists candidate, others, content, before, part, after, blob.
    repeat split; auto.
    intros p Hp. specialize (Hb p Hp). unfold hasInlineData in Hb.
    destruct (part_inlineData p); [discriminate|reflexivity].
Qed.

Lemma generateInpaintedImage_result_witness :
  gemini (answering imageResponse)
    (request (Some (lit "iVBO")) (lit "image/png") (Some (lit "QUJD"))
       (lit "a velvet armchair")) = inr imageResponse
  /\ outcome (run (answering imageResponse)
                (generateInpaintedImage (Some (lit "iVBO")) (lit "image/png")
                   (Some (lit "QUJD")) (lit "a velvet armchair")) tt)
     = Returned (lit "QUJD").
Proof.
  split; [reflexivity|].
  refine (proj1 (generateInpaintedImage_result (answering imageResponse) tt
                   (Some (lit "iVBO")) (lit "image/png")
                   (Some (lit "QUJD")) (lit "a velvet armchair")
                   imageResponse eq_refl)
            _ [] _ [] (inlinePart (Some (lit "QUJD"))) []
            (pngBlob (Some (lit "QUJD"))) (lit "QUJD")
            eq_refl eq_refl eq_refl _ eq_refl eq_refl _).
  - intros p [].
  - discriminate.
Defined.

(** C3 as stated fails: the first part that carries [inlineData] exists,
    a later part even has image data, and the call throws. *)
Lemma generateInpaintedImage_first_part_without_data :
  imagePart emptyThenImage = Some (inlinePart None)
  /\ hasInlineData (inlinePart None) = true
  /\ outcome (run (answering emptyThenImage)
                (generateInpaintedImage (Some (lit "iVBO")) (lit "image/png")
                   (Some (lit "QUJD")) (lit "a velvet armchair")) tt)
     = Threw (ErrorObj
         (lit "Image generation failed: No image data received from the API.")).
Proof. repeat split. Qed.

End GeminiFacts.

(* ================================================================== *)
(** * Running computations *)
(* ================================================================== *)

Module AsyncFacts.

Import Js Dom Async.

Lemma run_bind {S A B} (w : World) (m : Prog S A) (f : A -> Prog S B) s :
  run w (bind m f) s =
  match run w m s with
  | (tr, s', Returned a) =>
      let '(tr2, s'', o) := run w (f a) s' in (tr ++ tr2, s'', o)
  | (tr, s', Threw e) => (tr, s', Threw e)
  | (tr, s', Pending) => (tr, s', Pending)
  end.
Proof.
  revert s.
  induction m as [a | e | | g k IH | req k IH | file k IH | args k IH];
    intros s; simpl.
  - now destruct (run w (f a) s) as [[tr2 s''] o].
  - reflexivity.
  - reflexivity.
  - apply IH.
  - rewrite IH. destruct (run w (k (gemini w req)) s) as [[tr s'] [a|e|]];
      try reflexivity.
    now destruct (run w (f a) s') as [[tr2 s''] o].
  - rewrite IH. destruct (run w (k (reader w file)) s) as [[tr s'] [a|e|]];
      try reflexivity.
    now destruct (run w (f a) s') as [[tr2 s''] o].
  - rewrite IH. destruct (run w k s) as [[tr s'] [a|e|]]; try reflexivity.
    now destruct (run w (f a) s') as [[tr2 s''] o].
Qed.

Lemma run_try_catch {S A} (w : World) (m : Prog S A) (h : Thrown -> Prog S A) s :
  run w (try_catch m h) s =
  match run w m s with
  | (tr, s', Threw e) =>
      let '(tr2, s'', o) := run w (h e) s' in (tr ++ tr2, s'', o)
  | r => r
  end.
Proof.
  revert s.
  induction m as [a | e | | g k IH | req k IH | file k IH | args k IH];
    intros s; simpl.
  - reflexivity.
  - now destruct (run w (h e) s) as [[tr2 s''] o].
  - reflexivity.
  - apply IH.
  - rewrite IH. destruct (run w (k (gemini w req)) s) as [[tr s'] [a|e|]];
      try reflexivity.
    now destruct (run w (h e) s') as [[tr2 s''] o].
  - rewrite IH. destruct (run w (k (reader w file)) s) as [[tr s'] [a|e|]];
      try reflexivity.
    now destruct (run w (h e) s') as [[tr2 s''] o].
  - rewrite IH. destruct (run w k s) as [[tr s'] [a|e|]]; try reflexivity.
    now destruct (run w (h e) s') as [[tr2 s''] o].
Qed.

End AsyncFacts.

(* ================================================================== *)
(** * The conversions between files and data URLs *)
(* ================================================================== *)

Module ConversionFacts.

Import Js Dom Async App JsFacts AsyncFacts.
Open Scope N_scope.

Lemma store_length n v arr : List.length (store n v arr) = List.length arr.
Proof.
  revert n. induction arr as [|b arr IH]; intros [|n]; simpl; auto.
Qed.

Lemma skipn_store n v arr :
  (n < List.length arr)%nat ->
  skipn n (store n v arr)
  = match v with Some c => c mod 256 | None => 0 end :: skipn (S n) arr.
Proof.
  revert n. induction arr as [|b arr IH]; intros [|n]; simpl; intros H;
    try lia; [reflexivity|].
  apply IH. lia.
Qed.

Lemma firstn_snoc {A} (l : list A) n c :
  nth_error l n = Some c -> firstn (S n) l = firstn n l ++ [c].
Proof.
  revert n. induction l as [|a l IH]; intros [|n]; simpl; intros H;
    try discriminate.
  - now injection H as <-.
  - now rewrite <- IH.
Qed.

(** The loop of [dataURLtoFile] copies the code units of [bstr], each
    reduced modulo 256. *)
Lemma fill_prefix bstr n u8arr :
  (n <= List.length bstr)%nat -> List.length u8arr = List.length bstr ->
  fill bstr n u8arr
  = map (fun c => c mod 256) (firstn n bstr) ++ skipn n u8arr.
Proof.
  revert u8arr. induction n as [|n IH]; intros u8arr Hn Hl.
  - reflexivity.
  - simpl fill. rewrite IH by (rewrite ?store_length; lia).
    destruct (nth_error bstr n) as [c|] eqn:E.
    + unfold charCodeAt. rewrite E, skipn_store by lia.
      rewrite (firstn_snoc bstr n c E), map_app, <- app_assoc.
      reflexivity.
    + apply nth_error_None in E. lia.
Qed.

Lemma fill_all bstr :
  fill bstr (List.length bstr) (repeat 0 (List.length bstr))
  = map (fun c => c mod 256) bstr.
Proof.
  rewrite fill_prefix by (rewrite ?repeat_length; lia).
  rewrite firstn_all, skipn_all2 by (rewrite repeat_length; lia).
  apply app_nil_r.
Qed.

Lemma map_mod_small bs :
  Forall (fun b => b < 256) bs -> map (fun c => c mod 256) bs = bs.
Proof.
  induction 1 as [|b bs Hb _ IH]; simpl; [reflexivity|].
  rewrite IH. f_equal. now apply N.mod_small.
Qed.

(** What [plainMime] gives about each character. *)
Lemma plainMime_chars mime c :
  plainMime mime = true -> In c mime ->
  printable c = true /\ asciiLower c = c
  /\ c <> COMMA /\ c <> COLON /\ c <> SEMI /\ isLineTerminator c = false.
Proof.
  unfold plainMime. intros H Hin.
  apply andb_true_iff in H. destruct H as [_ H].
  rewrite forallb_forall in H. specialize (H c Hin).
  unfold plainMimeChar, printable, asciiLower, isLineTerminator,
    COMMA, COLON, SEMI in *.
  destruct ((65 <=? c) && (c <=? 90)) eqn:U; repeat split; lia.
Qed.

Lemma normalizeType_plain mime :
  plainMime mime = true -> normalizeType mime = mime.
Proof.
  intros H. unfold normalizeType.
  assert (P : forallb printable mime = true).
  { apply forallb_forall. intros c Hc.
    now destruct (plainMime_chars mime c H Hc). }
  rewrite P. clear P.
  assert (L : forall c, In c mime -> asciiLower c = c).
  { intros c Hc. now destruct (plainMime_chars mime c H Hc) as [_ [L _]]. }
  clear H. induction mime as [|c mime IH]; simpl; [reflexivity|].
  rewrite (L c) by now left. f_equal. apply IH.
  intros d Hd. apply L. now right.
Qed.

Section Url.

Variables (mime : jsstring) (bs : list N).
Hypothesis Hmime : plainMime mime = true.
Hypothesis Hbytes : Forall (fun b => b < 256) bs.

Let payload := base64_encode bs.
Let meta := lit "data:" ++ mime ++ lit ";base64".
Let dataurl := lit "data:" ++ mime ++ lit ";base64," ++ payload.

Lemma dataurl_shape : dataurl = meta ++ COMMA :: payload.
Proof.
  unfold dataurl, meta. rewrite <- !app_assoc. reflexivity.
Qed.

Lemma meta_without_comma : ~ In COMMA meta.
Proof.
  unfold meta. intros Hin. apply in_app_or in Hin. destruct Hin as [Hin|Hin].
  - simpl in Hin. unfold COMMA in Hin. intuition discriminate.
  - apply in_app_or in Hin. destruct Hin as [Hin|Hin].
    + destruct (plainMime_chars mime _ Hmime Hin) as [_ [_ [Hc _]]].
      now apply Hc.
    + simpl in Hin. unfold COMMA in Hin. intuition discriminate.
Qed.

Lemma split_dataurl : split COMMA dataurl = [meta; payload].
Proof.
  rewrite dataurl_shape, split_at by exact meta_without_comma.
  f_equal. apply split_without. apply encoding_without_comma.
Qed.

Lemma mime_without c :
  (c = COLON \/ c = SEMI) -> ~ In c mime.
Proof.
  intros Hc Hin.
  destruct (plainMime_chars mime _ Hmime Hin) as [_ [_ [_ [H1 [H2 _]]]]].
  destruct Hc; contradiction.
Qed.

Lemma mime_one_line :
  forallb (fun c => negb (isLineTerminator c)) mime = true.
Proof.
  apply forallb_forall. intros c Hin.
  destruct (plainMime_chars mime _ Hmime Hin) as [_ [_ [_ [_ [_ H]]]]].
  now rewrite H.
Qed.

Lemma match_meta : match_colon_semi meta = Some mime.
Proof.
  change meta with (lit "data" ++ COLON :: mime ++ SEMI :: lit "base64").
  apply match_colon_semi_at.
  - simpl. unfold COLON. intuition discriminate.
  - apply mime_without. now right.
  - exact mime_one_line.
Qed.

Lemma dataURLtoFile_dataurl filename :
  dataURLtoFile dataurl filename
  = inr {| name := filename; type := mime;
           size := N.of_nat (List.length bs); bytes := bs |}.
Proof.
  unfold dataURLtoFile. rewrite split_dataurl. simpl nth.
  rewrite match_meta. unfold atob, payload.
  rewrite decode_encode by exact Hbytes.
  rewrite fill_all, map_mod_small by exact Hbytes.
  unfold newFile. now rewrite normalizeType_plain.
Qed.

Lemma onload_dataurl :
  onload dataurl = Some {| base64 := Some payload; fileMimeType := mime |}.
Proof.
  unfold onload. rewrite split_dataurl. simpl nth. simpl nth_error.
  rewrite split_without.
  - change (lit ";base64") with (SEMI :: lit "base64").
    rewrite split_at by (apply mime_without; now right).
    reflexivity.
  - intros Hin. apply in_app_or in Hin. destruct Hin as [Hin|Hin].
    + revert Hin. apply mime_without. now left.
    + simpl in Hin. unfold COLON in Hin. intuition discriminate.
Qed.

Lemma mime_truthy : truthy mime = true.
Proof.
  unfold plainMime in Hmime. now apply andb_true_iff in Hmime.
Qed.

End Url.

(** [reader.onload] always finds a colon in what [readAsDataURL] gives:
    the promise of [fileToBase64] settles. *)
Lemma onload_total (f : File) : exists r, onload (dataURLofFile f) = Some r.
Proof.
  unfold dataURLofFile.
  generalize ((if truthy (type f) then type f
               else lit "application/octet-stream")
              ++ lit ";base64," ++ base64_encode (bytes f)).
  intros rest. unfold onload. cbn [lit list_ascii_of_string map app].
  cbn [N_of_ascii N_of_digits]. simpl split.
  destruct (split COMMA rest) as [|seg segs] eqn:E;
    [now apply split_not_nil in E|].
  simpl.
  destruct (split COLON seg) as [|seg' segs'] eqn:E';
    [now apply split_not_nil in E'|].
  simpl. eauto.
Qed.

End ConversionFacts.

(* ================================================================== *)
(** * The handlers of [App] *)
(* ================================================================== *)

Module AppFacts.

Import Js Dom Async Gemini App Samples.
Import JsFacts AsyncFacts GeminiFacts ConversionFacts.
Open Scope N_scope.

Lemma guard_false s :
  guard s = false ->
  exists originalImage maskImage,
    App.originalImage s = Some originalImage
    /\ App.maskImage s = Some maskImage
    /\ maskImage <> [] /\ trim (prompt s) <> [].
Proof.
  unfold guard. intros H.
  apply orb_false_iff in H. destruct H as [H H3].
  apply orb_false_iff in H. destruct H as [H1 H2].
  destruct (App.originalImage s) as [o|]; [|discriminate].
  destruct (App.maskImage s) as [m|]; [|discriminate].
  exists o, m. simpl in H2.
  apply negb_false_iff in H2, H3.
  apply truthy_not_nil in H2, H3. auto.
Qed.

Lemma guard_true s :
  App.originalImage s = None \/ App.maskImage s = None
  \/ App.maskImage s = Some [] \/ trim (prompt s) = [] ->
  guard s = true.
Proof.
  unfold guard. intros [H | [H | [H | H]]]; rewrite H; simpl;
    rewrite ?orb_true_r; reflexivity.
Qed.

(** [handleGenerate] from its first [await] on. *)
Lemma run_handleGenerate w s originalImage maskImage r :
  guard s = false ->
  App.originalImage s = Some originalImage ->
  App.maskImage s = Some maskImage ->
  onload (dataURLofFile originalImage) = Some r ->
  run w (handleGenerate s) s =
  if reader w originalImage then
    match run w (generateInpaintedImage (base64 r) (fileMimeType r)
                   (nth_error (split COMMA maskImage) 1) (prompt s))
            (loading s) with
    | (tr, s', Returned d) =>
        ((EReadAsDataURL originalImage, loading s) :: tr,
         succeeded d s', Returned tt)
    | (tr, s', Threw e) =>
        ((EReadAsDataURL originalImage, loading s)
           :: tr ++ [(EConsoleError [LogThrown e], s')],
         failed e s', Returned tt)
    | (tr, s', Pending) =>
        ((EReadAsDataURL originalImage, loading s) :: tr, s', Pending)
    end
  else
    ([(EReadAsDataURL originalImage, loading s);
      (EConsoleError [LogThrown ProgressEvent], loading s)],
     failed ProgressEvent (loading s), Returned tt).
Proof.
  intros G Ho Hm Hr. unfold handleGenerate. rewrite G, Ho, Hm.
  cbn [run]. fold (loading s).
  rewrite run_try_catch, run_bind. unfold fileToBase64. cbn [run].
  destruct (reader w originalImage).
  - rewrite Hr. cbn [run]. rewrite run_bind.
    destruct (run w (generateInpaintedImage (base64 r) (fileMimeType r)
                       (nth_error (split COMMA maskImage) 1) (prompt s))
                (loading s)) as [[tr s'] [d|e|]];
      cbn [run app]; rewrite ?app_nil_r; reflexivity.
  - reflexivity.
Qed.

Lemma errorMessage_not_empty e : errorMessage e <> [].
Proof.
  unfold errorMessage. destruct (message_of e) as [m|]; [|discriminate].
  destruct (truthy m) eqn:T; [|discriminate]. now apply truthy_not_nil.
Qed.

(** How an awaited [handleGenerate] ends when its guard lets it pass. *)
Lemma handleGenerate_ends w s :
  guard s = false ->
  let s' := final (run w (handleGenerate s) s) in
  (exists d, s' = succeeded d (loading s) /\ d <> [])
  \/ (exists e, s' = failed e (loading s)).
Proof.
  intros G.
  destruct (guard_false s G) as [o [m [Ho [Hm _]]]].
  destruct (onload_total o) as [r Hr].
  rewrite (run_handleGenerate w s o m r G Ho Hm Hr).
  destruct (reader w o); [|right; now exists ProgressEvent].
  set (req := request (base64 r) (fileMimeType r)
                (nth_error (split COMMA m) 1) (prompt s)).
  destruct (gemini w req) as [e|response] eqn:E.
  - unfold req in E. rewrite (run_rejected w _ _ _ _ _ e E).
    right. now exists e.
  - unfold req in E.
    destruct (extractImage_cases (S := State) response)
      as [[d [X [_ Hd]]] | [msg [X _]]].
    + rewrite (run_returned w _ _ _ _ _ response d E X).
      left. now exists d.
    + rewrite (run_threw w _ _ _ _ _ response _ E X).
      right. now eexists.
Qed.



(** C9: for every uploaded file of more than 4 * 1024 * 1024 bytes,
    [handleImageUpload] sets the error message 'Image size should be less
    than 4MB.' and changes no other state: [originalImage], [status],
    [maskImage], [generatedImage] and [prompt] (and the brush size and the
    clear counter) keep their values. *)
Theorem handleImageUpload_too_large (f : File) (s : State) :
  4 * 1024 * 1024 < size f ->
  let s' := handleImageUpload (Some f) s in
  error s' = Some (lit "Image size should be less than 4MB.")
  /\ originalImage s' = originalImage s
  /\ status s' = status s
  /\ maskImage s' = maskImage s
  /\ generatedImage s' = generatedImage s
  /\ prompt s' = prompt s
  /\ brushSize s' = brushSize s
  /\ clearCanvasCounter s' = clearCanvasCounter s.
Proof.
  intros H. unfold handleImageUpload.
  apply N.ltb_lt in H. rewrite H. simpl. repeat split.
Qed.

Lemma handleImageUpload_too_large_witness :
  4 * 1024 * 1024 < size bigFile
  /\ error (handleImageUpload (Some bigFile) initial)
     = Some (lit "Image size should be less than 4MB.").
Proof.
  assert (H : 4 * 1024 * 1024 < size bigFile) by reflexivity.
  split; [exact H|].
  exact (proj1 (handleImageUpload_too_large bigFile initial H)).
Defined.

(** C8: when [handleGenerate] runs with no original image, with no mask
    or an empty one, or with a prompt that is blank once trimmed, it
    sends no request to the image-generation service (it has no effect
    outside at all), sets the error message 'Please upload an image, mask
    an area, and enter a prompt.' and leaves [status], [originalImage],
    [maskImage], [prompt] and [generatedImage] as they were. *)
Theorem handleGenerate_incomplete (w : World) (s : State) :
  originalImage s = None \/ maskImage s = None
  \/ maskImage s = Some [] \/ trim (prompt s) = [] ->
  let r := run w (handleGenerate s) s in
  requests (trace r) = []
  /\ trace r = []
  /\ error (final r)
     = Some (lit "Please upload an image, mask an area, and enter a prompt.")
  /\ status (final r) = status s
  /\ originalImage (final r) = originalImage s
  /\ maskImage (final r) = maskImage s
  /\ prompt (final r) = prompt s
  /\ generatedImage (final r) = generatedImage s.
Proof.
  intros H. apply guard_true in H.
  unfold handleGenerate. rewrite H. simpl. repeat split.
Qed.

Lemma handleGenerate_incomplete_witness :
  (originalImage initial = None \/ maskImage initial = None
   \/ maskImage initial = Some [] \/ trim (prompt initial) = [])
  /\ requests (trace (run (answering imageResponse)
                        (handleGenerate initial) initial)) = [].
Proof.
  assert (H : originalImage initial = None \/ maskImage initial = None
              \/ maskImage initial = Some [] \/ trim (prompt initial) = [])
    by (left; reflexivity).
  split; [exact H|].
  exact (proj1 (handleGenerate_incomplete (answering imageResponse)
                  initial H)).
Defined.

Lemma no_terminator_in m :
  forallb (fun c => negb (isLineTerminator c)) m = true ->
  existsb isLineTerminator m = false.
Proof.
  induction m as [|c m IH]; simpl; intros H; [reflexivity|].
  apply andb_true_iff in H. destruct H as [Hc Hm].
  apply negb_true_iff in Hc. now rewrite Hc, IH.
Qed.

(** C7, as the code has it: for a data URL
    'data:<mime>;base64,<payload>' whose <mime> is not empty, printable,
    without upper-case letters and without comma, colon and semicolon,
    and whose <payload> is the base64 encoding of a byte sequence,
    [dataURLtoFile] gives a [File] of type <mime> whose bytes are the
    base64 decoding of <payload>, and [fileToBase64] of that file, when
    the read succeeds, gives back exactly <payload> and <mime>;
    [dataURLtoFile] throws 'Invalid data URL' when the text before the
    first comma has no ':', then characters of one line, then ';'. *)
Theorem dataURL_roundtrip (w : World) (mime : jsstring) (bs : list N)
    (filename : jsstring) :
  plainMime mime = true -> Forall (fun b => b < 256) bs ->
  let payload := base64_encode bs in
  let dataurl := lit "data:" ++ mime ++ lit ";base64," ++ payload in
  let file := {| name := filename; type := mime;
                 size := N.of_nat (List.length bs); bytes := bs |} in
  dataURLtoFile dataurl filename = inr file
  /\ forgiving_base64_decode payload = Some bs
  /\ run w (fileToBase64 file) tt
     = ([(EReadAsDataURL file, tt)], tt,
        if reader w file
        then Returned {| base64 := Some payload; fileMimeType := mime |}
        else Threw ProgressEvent)
  /\ forall other othername,
       (forall pre m post,
           nth 0 (split COMMA other) [] = pre ++ COLON :: m ++ SEMI :: post ->
           existsb isLineTerminator m = true) ->
       dataURLtoFile other othername = inl (ErrorObj (lit "Invalid data URL")).
Proof.
  intros Hmime Hbytes payload dataurl file. repeat split.
  - apply dataURLtoFile_dataurl; assumption.
  - apply decode_encode; assumption.
  - unfold fileToBase64. cbn [run]. destruct (reader w file); [|reflexivity].
    unfold dataURLofFile. cbn [type bytes file].
    rewrite (mime_truthy mime Hmime), (onload_dataurl mime bs Hmime).
    reflexivity.
  - intros other othername H. unfold dataURLtoFile.
    destruct (match_colon_semi (nth 0 (split COMMA other) [])) as [m|] eqn:E;
      [|reflexivity].
    destruct (match_colon_semi_some _ _ E) as [pre [post [Hs Hl]]].
    apply no_terminator_in in Hl. rewrite (H pre m post Hs) in Hl.
    discriminate.
Qed.

Lemma dataURL_roundtrip_witness :
  plainMime (lit "image/png") = true
  /\ Forall (fun b => b < 256) [65; 66; 67]
  /\ dataURLtoFile (lit "data:image/png;base64,QUJD") (lit "edited-image.png")
     = inr {| name := lit "edited-image.png"; type := lit "image/png";
              size := 3; bytes := [65; 66; 67] |}.
Proof.
  assert (H1 : plainMime (lit "image/png") = true) by reflexivity.
  assert (H2 : Forall (fun b => b < 256) [65; 66; 67])
    by (repeat (constructor; [reflexivity|]); constructor).
  split; [exact H1 | split; [exact H2 |]].
  exact (proj1 (dataURL_roundtrip (answering imageResponse) (lit "image/png")
                  [65; 66; 67] (lit "edited-image.png") H1 H2)).
Defined.

(** C7 as stated fails: 'QR==' decodes to the byte 65, and the file
    encodes back to 'QQ==', not to the payload it came from. *)
Lemma dataURL_roundtrip_changes_payload :
  dataURLtoFile (lit "data:image/png;base64,QR==") (lit "edited-image.png")
  = inr {| name := lit "edited-image.png"; type := lit "image/png";
           size := 1; bytes := [65] |}
  /\ outcome (run (answering imageResponse)
                (fileToBase64
                   {| name := lit "edited-image.png"; type := lit "image/png";
                      size := 1; bytes := [65] |}) tt)
     = Returned {| base64 := Some (lit "QQ=="); fileMimeType := lit "image/png" |}
  /\ lit "QQ==" <> lit "QR==".
Proof. repeat split. discriminate. Qed.




End AppFacts.

(* ================================================================== *)
(** * The masking canvas *)
(* ================================================================== *)

Module MaskingCanvasFacts.

Import Js MaskingCanvas Samples.
Open Scope N_scope.

Lemma added_app before os c :
  opsOf before = ops c ->
  added before (Some (call os c)) = os.
Proof.
  intros H. unfold added. rewrite H. simpl.
  rewrite skipn_app, skipn_all, Nat.sub_diag. reflexivity.
Qed.

Lemma added_same c : added c c = [].
Proof. unfold added. apply skipn_all. Qed.

Lemma resize_ops w h c :
  ops (setHeight h (setWidth w c)) = ops c ++ [SetWidth w; SetHeight h].
Proof. simpl. now rewrite <- app_assoc. Qed.

Section Steps.

Variable toDataURL : Canvas -> jsstring.

Ltac cases :=
  repeat match goal with
         | |- context [match ?x with _ => _ end] =>
             lazymatch x with
             | context [match _ with _ => _ end] => fail
             | _ => destruct x eqn:?
             end
         end;
  simpl;
  repeat match goal with
         | H : drawingCanvas _ = _ |- _ => rewrite H
         | H : imageCanvas _ = _ |- _ => rewrite H
         end;
  try reflexivity; simpl in *; try congruence.

Ltac unchanged :=
  simpl;
  repeat match goal with
         | H : drawingCanvas _ = _ |- _ => rewrite H
         end;
  exists []; split; [rewrite ?app_nil_r; reflexivity | constructor].

(** What one event does to the operations of the drawing canvas. *)
Lemma step_drawing ev s :
  exists os,
    opsOf (drawingCanvas (step toDataURL ev s))
    = opsOf (drawingCanvas s) ++ os
    /\ DrawingChange ev s os.
Proof.
  destruct ev as [e | e | | | image | | n]; simpl.
  - unfold startDrawing. destruct (getCoordinates e s); unchanged.
  - unfold draw. destruct (isDrawing s) eqn:D; [|unchanged]. simpl.
    unfold getCoordinates.
    destruct (drawingCanvas s) as [canvas|] eqn:C; [|unchanged].
    destruct (lastPoint s) as [last|] eqn:L; [|unchanged].
    destruct (context2d canvas) eqn:X; [|unchanged].
    eexists. split; [reflexivity|].
    now apply (Segment _ _ e canvas last).
  - unfold stopDrawing. destruct (isDrawing s); [|unchanged]. simpl.
    destruct (drawingCanvas s) eqn:C; unchanged.
  - unfold stopDrawing. destruct (isDrawing s); [|unchanged]. simpl.
    destruct (drawingCanvas s) eqn:C; unchanged.
  - unfold drawImage_onload. destruct (container s) as [c|]; [|unchanged].
    destruct (displaySize c image). unchanged.
  - destruct (timers s) as [|t rest] eqn:T; [unchanged|].
    unfold drawImage_timeout. simpl.
    destruct (imageCanvas s) as [ic|]; [|unchanged].
    destruct (drawingCanvas s) as [dc|] eqn:C; [|unchanged].
    destruct (context2d ic); [|simpl; unchanged].
    eexists. split; [apply resize_ops|].
    now apply (Resized _ _ t rest).
  - unfold clearEffect. destruct (0 <? n) eqn:P; [|unchanged].
    unfold clearCanvas.
    destruct (drawingCanvas s) as [canvas|] eqn:C; [|unchanged].
    destruct (context2d canvas); [|unchanged].
    eexists. split; [reflexivity|].
    apply (Cleared _ _ n canvas); auto. now apply N.ltb_lt.
Qed.

Lemma step_added ev s :
  DrawingChange ev s (added (drawingCanvas s) (drawingCanvas (step toDataURL ev s))).
Proof.
  destruct (step_drawing ev s) as [os [H D]].
  unfold added. rewrite H, skipn_app, skipn_all, Nat.sub_diag. exact D.
Qed.

(** What one event does to the operations of the image canvas. *)
Lemma step_image ev s :
  opsOf (imageCanvas (step toDataURL ev s)) = opsOf (imageCanvas s)
  \/ exists t rest,
       ev = Timeout /\ timers s = t :: rest
       /\ opsOf (imageCanvas (step toDataURL ev s))
          = opsOf (imageCanvas s)
            ++ [SetWidth (newWidth t); SetHeight (newHeight t);
                DrawImage (timer_image t) 0 0 (newWidth t) (newHeight t)].
Proof.
  destruct ev as [e | e | | | image | | n]; simpl.
  - left. unfold startDrawing. now destruct (getCoordinates e s).
  - left. unfold draw. destruct (isDrawing s); [|reflexivity]. simpl.
    destruct (getCoordinates e s); [|reflexivity].
    destruct (lastPoint s); [|reflexivity].
    destruct (drawingCanvas s) as [c|]; [|reflexivity].
    now destruct (context2d c).
  - left. unfold stopDrawing. destruct (isDrawing s); [|reflexivity]. simpl.
    now destruct (drawingCanvas s).
  - left. unfold stopDrawing. destruct (isDrawing s); [|reflexivity]. simpl.
    now destruct (drawingCanvas s).
  - left. unfold drawImage_onload. destruct (container s) as [c|];
      [|reflexivity].
    now destruct (displaySize c image).
  - destruct (timers s) as [|t rest] eqn:T; [now left|].
    unfold drawImage_timeout. simpl.
    destruct (imageCanvas s) as [ic|] eqn:I; [|left; simpl; now rewrite I].
    destruct (drawingCanvas s) as [dc|]; [|left; simpl; now rewrite I].
    destruct (context2d ic); [|left; simpl; now rewrite I].
    right. exists t, rest. repeat split. simpl.
    now rewrite <- !app_assoc.
  - left. unfold clearEffect. destruct (0 <? n); [|reflexivity].
    unfold clearCanvas. destruct (drawingCanvas s) as [c|]; [|reflexivity].
    now destruct (context2d c).
Qed.

(** Pointer events leave the image canvas as it is. *)
Lemma pointer_keeps_image ev s :
  isPointer ev = true -> imageCanvas (step toDataURL ev s) = imageCanvas s.
Proof.
  destruct ev as [e | e | | | image | | n]; simpl; try discriminate;
    intros _.
  - unfold startDrawing. now destruct (getCoordinates e s).
  - unfold draw. destruct (isDrawing s); [|reflexivity]. simpl.
    destruct (getCoordinates e s); [|reflexivity].
    destruct (lastPoint s); [|reflexivity].
    destruct (drawingCanvas s) as [c|]; [|reflexivity].
    now destruct (context2d c).
  - unfold stopDrawing. destruct (isDrawing s); [|reflexivity]. simpl.
    now destruct (drawingCanvas s).
  - unfold stopDrawing. destruct (isDrawing s); [|reflexivity]. simpl.
    now destruct (drawingCanvas s).
Qed.

(** [isDrawing] follows the button. *)
Lemma held_mono b evs : held b evs = true -> held true evs = true.
Proof.
  revert b. induction evs as [|ev evs IH]; intros b; simpl; [auto|].
  destruct ev; eauto.
Qed.

Lemma isDrawing_step ev s :
  isDrawing (step toDataURL ev s)
  = match ev with
    | MouseDown _ =>
        match drawingCanvas s with Some _ => true | None => isDrawing s end
    | MouseUp | MouseLeave => false
    | _ => isDrawing s
    end.
Proof.
  destruct ev as [e | e | | | image | | n]; simpl.
  - unfold startDrawing, getCoordinates. now destruct (drawingCanvas s).
  - unfold draw. destruct (isDrawing s) eqn:D; [|exact D]. simpl.
    destruct (getCoordinates e s); [|exact D].
    destruct (lastPoint s); [|exact D].
    destruct (drawingCanvas s) as [c|]; [|exact D].
    destruct (context2d c); exact D.
  - unfold stopDrawing. destruct (isDrawing s) eqn:D; [|exact D]. simpl.
    now destruct (drawingCanvas s).
  - unfold stopDrawing. destruct (isDrawing s) eqn:D; [|exact D]. simpl.
    now destruct (drawingCanvas s).
  - unfold drawImage_onload. destruct (container s) as [c|]; [|reflexivity].
    now destruct (displaySize c image).
  - destruct (timers s) as [|t rest]; [reflexivity|].
    unfold drawImage_timeout. simpl.
    destruct (imageCanvas s) as [ic|]; [|reflexivity].
    destruct (drawingCanvas s) as [dc|]; [|reflexivity].
    now destruct (context2d ic).
  - unfold clearEffect. destruct (0 <? n); [|reflexivity].
    unfold clearCanvas. destruct (drawingCanvas s) as [c|]; [|reflexivity].
    now destruct (context2d c).
Qed.

Lemma isDrawing_held evs s :
  isDrawing (steps toDataURL evs s) = true -> held (isDrawing s) evs = true.
Proof.
  revert s. induction evs as [|ev evs IH]; intros s H; simpl in *; [exact H|].
  specialize (IH _ H). rewrite isDrawing_step in IH.
  destruct ev; auto.
  destruct (drawingCanvas s); auto. now apply held_mono in IH.
Qed.

Lemma step_mounted ev s : isMounted (step toDataURL ev s) = isMounted s.
Proof.
  unfold isMounted.
  destruct ev as [e | e | | | image | | n]; simpl;
    unfold startDrawing, draw, stopDrawing, drawImage_onload,
      drawImage_timeout, clearEffect, clearCanvas, getCoordinates;
    destruct (isDrawing s) eqn:D; simpl;
    destruct (drawingCanvas s) as [c|] eqn:C; simpl; rewrite ?C;
    try reflexivity; cases.
Qed.

Lemma steps_mounted evs s : isMounted (steps toDataURL evs s) = isMounted s.
Proof.
  revert s. induction evs as [|ev evs IH]; intros s; simpl; [reflexivity|].
  now rewrite IH, step_mounted.
Qed.

Lemma held_isDrawing evs s :
  isMounted s = true -> isDrawing (steps toDataURL evs s) = held (isDrawing s) evs.
Proof.
  revert s. induction evs as [|ev evs IH]; intros s M; simpl; [reflexivity|].
  rewrite IH by now rewrite step_mounted.
  rewrite isDrawing_step. unfold isMounted in M.
  destruct ev; try reflexivity.
  now destruct (drawingCanvas s).
Qed.

(** Operations accumulate: along events, a canvas keeps what it has
    seen. *)
Lemma steps_drawing evs s :
  exists os,
    opsOf (drawingCanvas (steps toDataURL evs s))
    = opsOf (drawingCanvas s) ++ os
    /\ existsb isDrawImage os = false.
Proof.
  revert s. induction evs as [|ev evs IH]; intros s; simpl.
  - exists []. now rewrite app_nil_r.
  - destruct (IH (step toDataURL ev s)) as [os2 [H2 D2]].
    destruct (step_drawing ev s) as [os1 [H1 D1]].
    exists (os1 ++ os2). rewrite H2, H1, app_assoc. split; [reflexivity|].
    rewrite existsb_app, D2, orb_false_r.
    destruct D1; reflexivity.
Qed.

Lemma steps_image evs s :
  exists os,
    opsOf (imageCanvas (steps toDataURL evs s)) = opsOf (imageCanvas s) ++ os
    /\ existsb isStrokeOp os = false.
Proof.
  revert s. induction evs as [|ev evs IH]; intros s; simpl.
  - exists []. now rewrite app_nil_r.
  - destruct (IH (step toDataURL ev s)) as [os2 [H2 D2]].
    destruct (step_image ev s) as [H1 | [t [rest [_ [_ H1]]]]].
    + exists os2. now rewrite H2, H1.
    + eexists. rewrite H2, H1, <- app_assoc. split; [reflexivity|].
      rewrite existsb_app, D2. reflexivity.
Qed.

End Steps.

Lemma added_suffix before after os :
  opsOf after = opsOf before ++ os -> added before after = os.
Proof.
  intros H. unfold added.
  now rewrite H, skipn_app, skipn_all, Nat.sub_diag.
Qed.

(** A whole number within the range of the attribute is the size the
    canvas takes. *)
Lemma toCanvasSize_whole default v n :
  wholeNumber v = Some n -> n <= 2147483647 -> toCanvasSize default v = n.
Proof.
  unfold wholeNumber, toCanvasSize, truncate. intros W B.
  assert (R : forall z, (0 <= z)%Z -> Z.to_N z = n ->
              (if Z.to_N (z mod 2 ^ 32) <=? 2147483647
               then Z.to_N (z mod 2 ^ 32) else default) = n).
  { intros z Hz E.
    assert (z < 2 ^ 32)%Z by lia.
    rewrite Z.mod_small by lia. rewrite E.
    apply N.leb_le in B. now rewrite B. }
  destruct (Prim2SF v) as [sg | sg | | sg m e]; try discriminate.
  - injection W as <-. reflexivity.
  - destruct sg; [discriminate|].
    destruct e as [|p|k].
    + injection W as W. apply R; [|exact W]. lia.
    + injection W as W. apply R; [|exact W].
      apply Z.mul_nonneg_nonneg; [lia|]. apply Z.pow_nonneg. lia.
    + destruct (Z.eqb _ 0); [|discriminate].
      injection W as W. apply R; [|exact W].
      apply Z.div_pos; [lia|]. apply Z.pow_pos_nonneg; lia.
Qed.

(** C1, as the code has it: whatever the events, pixels of the mask
    bitmap change only by a [draw] while the pointer button is held over
    the canvas (between [startDrawing] and [stopDrawing]), by
    [clearCanvas] when the clear counter changes, and by the timer of
    [drawImage], which resizes the canvas; and when a held button is
    released or the pointer leaves the canvas, the bitmap is serialized
    to a data URL that is reported through [onMaskChange]. *)
Theorem mask_mutation (toDataURL : Canvas -> jsstring) (s0 : State)
    (evs : list Event) (ev : Event) :
  isDrawing s0 = false ->
  let s := steps toDataURL evs s0 in
  (mutated toDataURL ev s = true ->
     (exists e, ev = MouseMove e /\ held false evs = true)
     \/ (exists n, ev = ClearCounter n /\ 0 < n)
     \/ ev = Timeout)
  /\ (forall canvas,
        held false evs = true -> drawingCanvas s = Some canvas ->
        ev = MouseUp \/ ev = MouseLeave ->
        maskChanges (step toDataURL ev s)
        = maskChanges s ++ [toDataURL canvas]
        /\ drawingCanvas (step toDataURL ev s) = Some canvas
        /\ isDrawing (step toDataURL ev s) = false).
Proof.
  intros H0 s. split.
  - unfold mutated.
    destruct (step_added toDataURL ev s)
      as [|e canvas last E D _ _ _|n c E P _|t r E _]; intros M.
    + discriminate.
    + left. exists e. split; [exact E|].
      apply (isDrawing_held toDataURL) in D. now rewrite H0 in D.
    + right. left. now exists n.
    + right. right. exact E.
  - intros canvas Hh Hc Hev.
    assert (D : isDrawing s = true).
    { unfold s. rewrite held_isDrawing.
      - now rewrite H0.
      - rewrite <- (steps_mounted toDataURL evs s0).
        fold s. unfold isMounted. now rewrite Hc. }
    destruct Hev as [-> | ->]; simpl; unfold stopDrawing; rewrite D; simpl;
      rewrite Hc; repeat split; exact Hc.
Qed.

Lemma mask_mutation_witness :
  isDrawing mounted = false
  /\ maskChanges (steps sampleDataURL oneStroke mounted)
     = [sampleDataURL
          {| width := 300; height := 150; context2d := true;
             rectLeft := 10; rectTop := 20;
             ops := segment (lit "#FFFFFF") 40
                      {| x := 100; y := 100 |} {| x := 120; y := 105 |} |}].
Proof.
  assert (H : isDrawing mounted = false) by reflexivity.
  split; [exact H|].
  exact (proj1 (proj2 (mask_mutation sampleDataURL mounted
                         [MouseDown (at_ 110 120); MouseMove (at_ 130 125)]
                         MouseUp H)
                  _ eq_refl eq_refl (or_introl eq_refl))).
Defined.

(** C1 as stated fails: after a stroke, with the button released, the
    effect on the clear counter clears the mask bitmap. *)
Lemma mask_cleared_while_released :
  held false oneStroke = false
  /\ isDrawing (steps sampleDataURL oneStroke mounted) = false
  /\ mutated sampleDataURL (ClearCounter 1)
       (steps sampleDataURL oneStroke mounted) = true
  /\ added (drawingCanvas (steps sampleDataURL oneStroke mounted))
       (drawingCanvas
          (step sampleDataURL (ClearCounter 1)
             (steps sampleDataURL oneStroke mounted)))
     = [ClearRect 0 0 300 150].
Proof. repeat split. Qed.

Lemma steps_snoc toDataURL evs ev s :
  steps toDataURL (evs ++ [ev]) s
  = step toDataURL ev (steps toDataURL evs s).
Proof.
  revert s. induction evs as [|e evs IH]; intros s; simpl; auto.
Qed.

(** C5: the surface has two layers.  The base image is drawn onto the
    image canvas and only there: when the timer of [drawImage] runs with
    both canvases and a 2D context on the image canvas, the image canvas
    receives its new size and the [drawImage] of the loaded image at the
    display size, and the drawing canvas its new size alone; no event
    ever puts a [drawImage] on the drawing canvas, and the image canvas
    receives nothing else.  Every stroke goes only onto the drawing
    canvas: a [draw] while drawing adds to it exactly one path from the
    last recorded point to the current point, stroked with round caps,
    round joins, the brush size and the brush color, and records the
    current point as the start of the next segment; no stroke call ever
    reaches the image canvas, and pointer events leave it untouched. *)
Theorem two_layers (toDataURL : Canvas -> jsstring) (s0 : State)
    (evs : list Event) (ev : Event) :
  let s := steps toDataURL evs s0 in
  let s' := step toDataURL ev s in
  existsb isDrawImage (added (drawingCanvas s0) (drawingCanvas s')) = false
  /\ existsb isStrokeOp (added (imageCanvas s0) (imageCanvas s')) = false
  /\ (isPointer ev = true -> imageCanvas s' = imageCanvas s)
  /\ (added (imageCanvas s) (imageCanvas s') = []
      \/ exists t rest,
           ev = Timeout /\ timers s = t :: rest
           /\ added (imageCanvas s) (imageCanvas s')
              = [SetWidth (newWidth t); SetHeight (newHeight t);
                 DrawImage (timer_image t) 0 0 (newWidth t) (newHeight t)])
  /\ (forall e canvas last,
        ev = MouseMove e -> isDrawing s = true ->
        drawingCanvas s = Some canvas -> context2d canvas = true ->
        lastPoint s = Some last ->
        let coords := {| x := (clientX e - rectLeft canvas)%float;
                         y := (clientY e - rectTop canvas)%float |} in
        added (drawingCanvas s) (drawingCanvas s')
        = [ StrokeStyle (brushColor s); LineWidth (brushSize s);
            SetLineCap round; SetLineJoin roundJoin;
            BeginPath; MoveTo (x last) (y last);
            LineTo (x coords) (y coords); Stroke; ClosePath ]
        /\ lastPoint s' = Some coords)
  /\ (existsb isStrokeOp (added (drawingCanvas s) (drawingCanvas s')) = true ->
      exists e, ev = MouseMove e /\ isDrawing s = true)
  /\ (forall t rest imageCanvas0 drawingCanvas0,
        ev = Timeout -> timers s = t :: rest ->
        imageCanvas s = Some imageCanvas0 -> context2d imageCanvas0 = true ->
        drawingCanvas s = Some drawingCanvas0 ->
        added (imageCanvas s) (imageCanvas s')
        = [SetWidth (newWidth t); SetHeight (newHeight t);
           DrawImage (timer_image t) 0 0 (newWidth t) (newHeight t)]
        /\ added (drawingCanvas s) (drawingCanvas s')
           = [SetWidth (newWidth t); SetHeight (newHeight t)])
  /\ (forall image c imageCanvas0 drawingCanvas0,
        container s = Some c -> timers s = [] ->
        imageCanvas s = Some imageCanvas0 -> context2d imageCanvas0 = true ->
        drawingCanvas s = Some drawingCanvas0 ->
        let shown := steps toDataURL [ImageLoad image; Timeout] s in
        added (imageCanvas s) (imageCanvas shown)
        = [SetWidth (fst (displaySize c image));
           SetHeight (snd (displaySize c image));
           DrawImage image 0 0 (fst (displaySize c image))
             (snd (displaySize c image))]
        /\ added (drawingCanvas s) (drawingCanvas shown)
           = [SetWidth (fst (displaySize c image));
              SetHeight (snd (displaySize c image))]).
Proof.
  intros s s'. repeat apply conj.
  - unfold s', s. rewrite <- steps_snoc.
    destruct (steps_drawing toDataURL (evs ++ [ev]) s0) as [os [H D]].
    now rewrite (added_suffix _ _ os H).
  - unfold s', s. rewrite <- steps_snoc.
    destruct (steps_image toDataURL (evs ++ [ev]) s0) as [os [H D]].
    now rewrite (added_suffix _ _ os H).
  - apply pointer_keeps_image.
  - destruct (step_image toDataURL ev s) as [H | [t [rest [E [T H]]]]].
    + left. unfold added. fold s' in H. rewrite H. apply skipn_all.
    + right. exists t, rest. repeat split; auto.
      now apply added_suffix.
  - clearbody s. intros e canvas last -> D C X L coords. unfold s'. simpl.
    unfold draw, getCoordinates. rewrite D, C, L, X. simpl.
    split; [|reflexivity].
    apply added_suffix. reflexivity.
  - unfold s'. clearbody s.
    destruct (step_added toDataURL ev s)
      as [|e canvas last E D _ _ _|n c E _ _|t r E _]; intros M;
      try discriminate.
    now exists e.
  - clearbody s. intros t rest ic dc -> T I X D. unfold s'. simpl.
    rewrite T. unfold drawImage_timeout. simpl. rewrite I, D, X.
    split; apply added_suffix; simpl; rewrite <- ?app_assoc; reflexivity.
  - clearbody s. intros image c ic dc K T I X D shown.
    unfold shown. simpl. unfold drawImage_onload. rewrite K, T.
    destruct (displaySize c image) as [w h]. simpl.
    unfold drawImage_timeout. simpl. rewrite I, D, X.
    split; apply added_suffix; simpl; rewrite <- ?app_assoc; reflexivity.
Qed.

Lemma two_layers_witness :
  let s := steps sampleDataURL [MouseDown (at_ 110 120)] mounted in
  isDrawing s = true
  /\ added (drawingCanvas s)
       (drawingCanvas (step sampleDataURL (MouseMove (at_ 130 125)) s))
     = [ StrokeStyle (lit "#FFFFFF"); LineWidth 40;
         SetLineCap round; SetLineJoin roundJoin;
         BeginPath; MoveTo 100 100; LineTo 120 105; Stroke; ClosePath ]
  /\ added (imageCanvas mounted)
       (imageCanvas (steps sampleDataURL [ImageLoad photo; Timeout] mounted))
     = [ SetWidth 400; SetHeight (400 / (300 / 200))%float;
         DrawImage photo 0 0 400 (400 / (300 / 200))%float ].
Proof.
  split; [reflexivity|]. split.
  - exact (proj1 (proj1 (proj2 (proj2 (proj2 (proj2
             (two_layers sampleDataURL mounted [MouseDown (at_ 110 120)]
                (MouseMove (at_ 130 125)))))))
             (at_ 130 125) blank {| x := 100; y := 100 |}
             eq_refl eq_refl eq_refl eq_refl eq_refl)).
  - exact (proj1 (proj2 (proj2 (proj2 (proj2 (proj2 (proj2 (proj2
             (two_layers sampleDataURL mounted [] MouseUp)))))))
             photo {| offsetWidth := 400; offsetHeight := 400 |}
             blank blank eq_refl eq_refl eq_refl eq_refl eq_refl)).
Defined.

(** C6, as the code has it: [drawImage] computes the display size from
    the container and the aspect ratio of the image: the width of the
    container and that width divided by the aspect ratio, unless this
    height exceeds a positive container height, in which case the height
    of the container and that height times the aspect ratio.  Both
    canvases get the same bitmap size, which is this display size with
    its fractions cut off (the conversion of the [width] and [height]
    attributes): the bitmap has exactly the display size when that is a
    whole number of pixels below 2^31.  A pointer position is taken as
    [clientX], [clientY] minus the corner of the canvas box, without
    scaling. *)
Theorem display_and_bitmap_size (toDataURL : Canvas -> jsstring) (s : State)
    (c : Container) (image : Image) (ic dc : Canvas) :
  container s = Some c -> imageCanvas s = Some ic ->
  drawingCanvas s = Some dc -> context2d ic = true -> timers s = [] ->
  let aspectRatio := (image_width image / image_height image)%float in
  let tooHigh :=
    (offsetHeight c <? offsetWidth c / aspectRatio)%float
    && (0 <? offsetHeight c)%float in
  let w := if tooHigh then (offsetHeight c * aspectRatio)%float
           else offsetWidth c in
  let h := if tooHigh then offsetHeight c
           else (offsetWidth c / aspectRatio)%float in
  let s' := steps toDataURL [ImageLoad image; Timeout] s in
  dimensions s' = (w, h)
  /\ exists ic' dc',
       imageCanvas s' = Some ic' /\ drawingCanvas s' = Some dc'
       /\ width ic' = toCanvasSize 300 w /\ height ic' = toCanvasSize 150 h
       /\ width dc' = toCanvasSize 300 w /\ height dc' = toCanvasSize 150 h
       /\ (forall n, wholeNumber w = Some n -> n <= 2147483647 ->
             width ic' = n /\ width dc' = n)
       /\ (forall n, wholeNumber h = Some n -> n <= 2147483647 ->
             height ic' = n /\ height dc' = n)
       /\ forall e,
            getCoordinates e s'
            = Some {| x := (clientX e - rectLeft dc')%float;
                      y := (clientY e - rectTop dc')%float |}.
Proof.
  intros Hc Hi Hd Hx Ht aspectRatio tooHigh w h s'.
  assert (E : displaySize c image = (w, h)).
  { unfold displaySize. fold aspectRatio. fold tooHigh.
    unfold w, h. now destruct tooHigh. }
  assert (S' : s' = drawImage_timeout
                      {| timer_image := image; newWidth := w; newHeight := h |}
                      (setTimers [] (setTimers
                         [{| timer_image := image; newWidth := w;
                             newHeight := h |}]
                         (setDimensions (w, h) s)))).
  { unfold s'. simpl. unfold drawImage_onload. rewrite Hc, E, Ht.
    reflexivity. }
  rewrite S'. unfold drawImage_timeout. simpl. rewrite Hi, Hd, Hx. simpl.
  split; [reflexivity|].
  eexists. eexists. repeat split.
  - simpl. rewrite (toCanvasSize_whole 300 w n); auto.
  - simpl. rewrite (toCanvasSize_whole 300 w n); auto.
  - simpl. rewrite (toCanvasSize_whole 150 h n); auto.
  - simpl. rewrite (toCanvasSize_whole 150 h n); auto.
Qed.

Lemma display_and_bitmap_size_witness :
  container mounted
  = Some {| offsetWidth := 400; offsetHeight := 400 |}
  /\ imageCanvas mounted = Some blank /\ drawingCanvas mounted = Some blank
  /\ context2d blank = true /\ timers mounted = []
  /\ dimensions (steps sampleDataURL [ImageLoad photo; Timeout] mounted)
     = (400%float, (400 / (300 / 200))%float).
Proof.
  repeat (split; [reflexivity|]).
  exact (proj1 (display_and_bitmap_size sampleDataURL mounted
                  {| offsetWidth := 400; offsetHeight := 400 |} photo
                  blank blank eq_refl eq_refl eq_refl eq_refl eq_refl)).
Defined.

(** C6 as stated fails: for a photo of 300 by 200 in a container of 400
    by 400 the display height is 400 / 1.5, which is no whole number, and
    the bitmaps of both canvases are 266 pixels high. *)
Lemma bitmap_smaller_than_display :
  let s' := steps sampleDataURL [ImageLoad photo; Timeout] mounted in
  dimensions s' = (400%float, (400 / (300 / 200))%float)
  /\ option_map height (imageCanvas s') = Some 266
  /\ option_map height (drawingCanvas s') = Some 266
  /\ wholeNumber (snd (dimensions s')) = None
  /\ (266 <? snd (dimensions s'))%float = true.
Proof. repeat split. Qed.

End MaskingCanvasFacts.

(* ================================================================== *)
(** * More about [generateInpaintedImage] *)
(* ================================================================== *)

Module GeminiMore.

Import Js Dom Async Gemini Samples MoreSamples.
Import JsFacts GeminiFacts.
Open Scope N_scope.

(** X1: a call that fails, whether the service rejects it or answers
    without image data, is reported to [console.error] exactly once,
    after the request and with the very value that is thrown; a call
    that succeeds reports nothing. *)
Theorem failure_logged_once {S} (w : World) (s : S)
    (original : option jsstring) (mime : jsstring)
    (mask : option jsstring) (prompt : jsstring) :
  let req := request original mime mask prompt in
  let r := run w (generateInpaintedImage original mime mask prompt) s in
  match outcome r with
  | Returned d => trace r = [(EGenerateContent req, s)]
  | Threw e =>
      trace r
      = [(EGenerateContent req, s);
         (EConsoleError
            [LogText (lit "Gemini API call failed:"); LogThrown e], s)]
  | Pending => False
  end.
Proof.
  intros req r. unfold r, req.
  destruct (gemini w (request original mime mask prompt))
    as [e|response] eqn:G.
  - now rewrite (run_rejected w s original mime mask prompt e G).
  - destruct (extractImage_cases (S := S) response)
      as [[d [E _]] | [m [E _]]].
    + now rewrite (run_returned w s original mime mask prompt response d G E).
    + now rewrite (run_threw w s original mime mask prompt response _ G E).
Qed.

(** X2: only the first candidate of the response and its text decide
    the result: two responses that agree on these give the same
    outcome, whatever their other candidates hold. *)
Theorem only_first_candidate {S} (s : S)
    (original : option jsstring) (mime : jsstring)
    (mask : option jsstring) (prompt : jsstring)
    (candidate : Candidate) (others1 others2 : list Candidate)
    (text : option jsstring) :
  let answer others :=
    {| gemini := fun _ =>
         inr {| candidates := Some (candidate :: others);
                response_text := text |};
       reader := fun _ => true |} in
  run (answer others1) (generateInpaintedImage original mime mask prompt) s
  = run (answer others2) (generateInpaintedImage original mime mask prompt) s.
Proof.
  intros answer.
  set (r1 := {| candidates := Some (candidate :: others1);
                response_text := text |}).
  set (r2 := {| candidates := Some (candidate :: others2);
                response_text := text |}).
  assert (E : extractImage (S := S) r1 = extractImage r2) by reflexivity.
  destruct (extractImage_cases (S := S) r1) as [[d [E1 _]] | [m [E1 _]]].
  - rewrite (run_returned (answer others1) s original mime mask prompt r1 d
               eq_refl E1).
    rewrite E in E1.
    now rewrite (run_returned (answer others2) s original mime mask prompt
                   r2 d eq_refl E1).
  - rewrite (run_threw (answer others1) s original mime mask prompt r1 _
               eq_refl E1).
    rewrite E in E1.
    now rewrite (run_threw (answer others2) s original mime mask prompt
                   r2 _ eq_refl E1).
Qed.

End GeminiMore.

(* ================================================================== *)
(** * More about the conversions *)
(* ================================================================== *)

Module ConversionMore.

Import Js Dom Async App Samples MoreSamples.
Import JsFacts AsyncFacts ConversionFacts.
Open Scope N_scope.

Lemma b64value_small c v : b64value c = Some v -> v < 64.
Proof.
  unfold b64value. cases_if; intros H; try discriminate;
    injection H as <-; lia.
Qed.

Lemma values_of_small s vs :
  values_of s = Some vs -> Forall (fun v => v < 64) vs.
Proof.
  revert vs. induction s as [|c s IH]; simpl; intros vs H.
  - injection H as <-. constructor.
  - destruct (b64value c) as [v|] eqn:E; [|discriminate].
    destruct (values_of s) as [vs'|]; [|discriminate].
    injection H as <-. constructor; [now apply (b64value_small c)|].
    now apply IH.
Qed.

Lemma bytes_of_sextets_small vs :
  Forall (fun v => v < 64) vs -> Forall (fun b => b < 256) (bytes_of_sextets vs).
Proof.
  revert vs. fix IH 1.
  intros [|a [|b [|c [|d rest]]]] H; simpl.
  - constructor.
  - constructor.
  - inversion_clear H as [|? ? Ha H1]. inversion_clear H1 as [|? ? Hb _].
    constructor; [lia|constructor].
  - inversion_clear H as [|? ? Ha H1]. inversion_clear H1 as [|? ? Hb H2].
    inversion_clear H2 as [|? ? Hc _].
    constructor; [lia|]. constructor; [lia|constructor].
  - inversion_clear H as [|? ? Ha H1]. inversion_clear H1 as [|? ? Hb H2].
    inversion_clear H2 as [|? ? Hc H3]. inversion_clear H3 as [|? ? Hd H4].
    constructor; [lia|]. constructor; [lia|]. constructor; [lia|].
    apply IH. exact H4.
Qed.

Lemma decode_small s bs :
  forgiving_base64_decode s = Some bs -> Forall (fun b => b < 256) bs.
Proof.
  unfold forgiving_base64_decode.
  destruct (Nat.eqb _ 1); [discriminate|].
  destruct (values_of _) as [vs|] eqn:V; [|discriminate].
  intros H. injection H as <-.
  apply bytes_of_sextets_small. now apply values_of_small in V.
Qed.

(** X3: [dataURLtoFile] has three ways to end.  It throws 'Invalid data
    URL' when the text before the first comma has no match for
    [/:(.*?);/]; it throws the [InvalidCharacterError] of [atob] when the
    text between the first and the second comma is not base64; otherwise
    it returns a file with the given name whose bytes are exactly the
    decoded ones (no byte is changed by the copy into the [Uint8Array])
    and whose size is their number. *)
Theorem dataURLtoFile_outcomes (dataurl filename : jsstring) :
  let arr := split COMMA dataurl in
  let meta := nth 0 arr [] in
  let payload := nth 1 arr (lit "undefined") in
  match match_colon_semi meta, forgiving_base64_decode payload with
  | None, _ =>
      dataURLtoFile dataurl filename = inl (ErrorObj (lit "Invalid data URL"))
  | Some mime, None =>
      exists message,
        dataURLtoFile dataurl filename
        = inl (DOMException (lit "InvalidCharacterError") message)
  | Some mime, Some bs =>
      dataURLtoFile dataurl filename
      = inr {| name := filename; type := normalizeType mime;
               size := N.of_nat (List.length bs); bytes := bs |}
      /\ Forall (fun b => b < 256) bs
  end.
Proof.
  intros arr meta payload. unfold dataURLtoFile. fold arr. fold meta.
  fold payload.
  destruct (match_colon_semi meta) as [mime|]; [|reflexivity].
  unfold atob.
  destruct (forgiving_base64_decode payload) as [bs|] eqn:D.
  - pose proof (decode_small _ _ D) as B. split; [|exact B].
    rewrite fill_all, map_mod_small by exact B. reflexivity.
  - eexists. reflexivity.
Qed.

Section Package.

Variables (f : File) (base params : jsstring).

Let mediaType :=
  if truthy (type f) then type f else lit "application/octet-stream".

Hypothesis Hsplit : mediaType = base ++ params.
Hypothesis Hbase : forall c, In c base -> c <> COMMA /\ c <> COLON /\ c <> SEMI.
Hypothesis Hparams :
  params = []
  \/ exists q, params = SEMI :: q
       /\ forall c, In c q -> c <> COMMA /\ c <> COLON.

Lemma package_shape :
  exists q,
    dataURLofFile f
    = (lit "data" ++ COLON :: (base ++ SEMI :: q))
      ++ COMMA :: base64_encode (bytes f)
    /\ forall c, In c q -> c <> COMMA /\ c <> COLON.
Proof.
  assert (E : dataURLofFile f
              = lit "data:" ++ (base ++ params) ++ lit ";base64,"
                ++ base64_encode (bytes f)).
  { unfold dataURLofFile. rewrite <- Hsplit. reflexivity. }
  rewrite E. clear E.
  destruct Hparams as [-> | [q [-> Hq]]].
  - exists (lit "base64"). split.
    + rewrite app_nil_r. simpl. rewrite <- ?app_assoc. reflexivity.
    + intros c Hc. simpl in Hc. unfold COMMA, COLON.
      repeat (destruct Hc as [<- | Hc]; [split; discriminate|]).
      contradiction.
  - exists (q ++ lit ";base64"). split.
    + simpl. rewrite <- ?app_assoc. simpl. rewrite <- ?app_assoc.
      reflexivity.
    + intros c Hc. apply in_app_or in Hc. destruct Hc as [Hc | Hc];
        [now apply Hq|].
      simpl in Hc. unfold COMMA, COLON.
      repeat (destruct Hc as [<- | Hc]; [split; discriminate|]).
      contradiction.
Qed.

Lemma onload_package :
  onload (dataURLofFile f)
  = Some {| base64 := Some (base64_encode (bytes f)); fileMimeType := base |}.
Proof.
  destruct package_shape as [q [-> Hq]].
  unfold onload. rewrite split_at.
  - rewrite (split_without COMMA (base64_encode (bytes f)))
      by apply encoding_without_comma.
    cbn [nth nth_error].
    rewrite split_at by (simpl; unfold COLON; intuition discriminate).
    rewrite split_without.
    + cbn [nth_error]. rewrite split_at; [reflexivity|].
      intros Hin. now destruct (Hbase _ Hin) as [_ [_ H]].
    + intros Hin. apply in_app_or in Hin. destruct Hin as [Hin | Hin].
      * now destruct (Hbase _ Hin) as [_ [H _]].
      * destruct Hin as [Hin | Hin]; [discriminate|].
        now destruct (Hq _ Hin) as [_ H].
  - intros Hin. apply in_app_or in Hin. destruct Hin as [Hin | Hin].
    + simpl in Hin. unfold COMMA in Hin. intuition discriminate.
    + destruct Hin as [Hin | Hin]; [discriminate|].
      apply in_app_or in Hin. destruct Hin as [Hin | Hin].
      * now destruct (Hbase _ Hin) as [H _].
      * destruct Hin as [Hin | Hin]; [discriminate|].
        now destruct (Hq _ Hin) as [H _].
Qed.

End Package.

Lemma run_fileToBase64 {S} (w : World) (s : S) (f : File) :
  run w (fileToBase64 f) s
  = ([(EReadAsDataURL f, s)], s,
     if reader w f
     then match onload (dataURLofFile f) with
          | Some r => Returned r
          | None => Pending
          end
     else Threw ProgressEvent).
Proof.
  unfold fileToBase64. cbn [run]. destruct (reader w f); [|reflexivity].
  now destruct (onload (dataURLofFile f)).
Qed.

(** X4: [fileToBase64] reads the file once and, when the read succeeds,
    resolves with the base64 encoding of the bytes of the file and with
    its media type cut at the first semicolon, that is without the
    parameters; a file without a type is given
    'application/octet-stream'.  This holds for every media type whose
    part before the parameters has no comma, colon or semicolon and whose
    parameters have no comma or colon.  When the read fails, the promise
    rejects with the event of the reader. *)
Theorem fileToBase64_result {S} (w : World) (s : S) (f : File)
    (base params : jsstring) :
  (if truthy (type f) then type f else lit "application/octet-stream")
  = base ++ params ->
  (forall c, In c base -> c <> COMMA /\ c <> COLON /\ c <> SEMI) ->
  (params = []
   \/ exists q, params = SEMI :: q
        /\ forall c, In c q -> c <> COMMA /\ c <> COLON) ->
  run w (fileToBase64 f) s
  = ([(EReadAsDataURL f, s)], s,
     if reader w f
     then Returned {| base64 := Some (base64_encode (bytes f));
                      fileMimeType := base |}
     else Threw ProgressEvent).
Proof.
  intros H1 H2 H3. rewrite run_fileToBase64.
  now rewrite (onload_package f base params H1 H2 H3).
Qed.

Lemma fileToBase64_result_witness :
  outcome (run (answering imageResponse) (fileToBase64 textFile) tt)
  = Returned {| base64 := Some (lit "aGk="); fileMimeType := lit "text/plain" |}.
Proof.
  refine (f_equal snd
            (fileToBase64_result (answering imageResponse) tt textFile
               (lit "text/plain") (lit ";charset=utf-8") eq_refl _ _)).
  - intros c Hc. simpl in Hc. unfold COMMA, COLON, SEMI.
    repeat (destruct Hc as [<- | Hc];
            [repeat split; discriminate|]).
    contradiction.
  - right. exists (lit "charset=utf-8"). split; [reflexivity|].
    intros c Hc. simpl in Hc. unfold COMMA, COLON.
    repeat (destruct Hc as [<- | Hc]; [split; discriminate|]).
    contradiction.
Defined.

End ConversionMore.

(* ================================================================== *)
(** * More about the handlers of [App] *)
(* ================================================================== *)

Module AppMore.

Import Js Dom Async Gemini App AppView Samples MoreSamples.
Import JsFacts AsyncFacts GeminiFacts ConversionFacts AppFacts ConversionMore.
Open Scope N_scope.

Lemma handleGenerate_runs w s f :
  guard s = false -> originalImage s = Some f ->
  GenerateRun w s f (run w (handleGenerate s) s).
Proof.
  intros G Ho.
  destruct (guard_false s G) as [o [m [Ho' [Hm _]]]].
  rewrite Ho in Ho'. injection Ho' as <-.
  destruct (onload_total f) as [r Hr].
  rewrite (run_handleGenerate w s f m r G Ho Hm Hr).
  destruct (reader w f) eqn:R; [|now constructor].
  set (req := request (base64 r) (fileMimeType r)
                (nth_error (split COMMA m) 1) (prompt s)).
  destruct (gemini w req) as [e|response] eqn:E; unfold req in E.
  - rewrite (run_rejected w _ _ _ _ _ e E). now constructor.
  - destruct (extractImage_cases (S := State) response)
      as [[d [X _]] | [msg [X _]]].
    + rewrite (run_returned w _ _ _ _ _ response d E X). now constructor.
    + rewrite (run_threw w _ _ _ _ _ response _ E X). now constructor.
Qed.



(** What [handleGenerate] sends. *)
Lemma handleGenerate_sends (w : World) (s : State) (f : File)
    (header payload : jsstring) :
  originalImage s = Some f -> plainMime (type f) = true ->
  maskImage s = Some (header ++ COMMA :: payload) ->
  ~ In COMMA header -> ~ In COMMA payload ->
  trim (prompt s) <> [] -> reader w f = true ->
  requests (trace (run w (handleGenerate s) s))
  = [EGenerateContent
       (request (Some (base64_encode (bytes f))) (type f) (Some payload)
          (prompt s))].
Proof.
  intros Ho Hp Hm Hh Hpl Ht R.
  assert (G : guard s = false).
  { unfold guard. rewrite Ho, Hm. simpl.
    apply truthy_not_nil in Ht. rewrite Ht.
    now destruct header. }
  assert (Hr : onload (dataURLofFile f)
               = Some {| base64 := Some (base64_encode (bytes f));
                         fileMimeType := type f |}).
  { unfold dataURLofFile. rewrite (mime_truthy _ Hp).
    apply (onload_dataurl (type f) (bytes f) Hp). }
  rewrite (run_handleGenerate w s f _ _ G Ho Hm Hr), R.
  rewrite split_at, (split_without COMMA payload) by assumption.
  cbn [nth_error base64 fileMimeType].
  match goal with
  | |- context [run w (generateInpaintedImage ?a ?b ?c ?d) ?st] =>
      pose proof (requests_of_run w st a b c d) as [Q _];
      destruct (run w (generateInpaintedImage a b c d) st)
        as [[tr s'] [x|e|]]
  end; unfold requests in *; simpl in *; try exact Q.
  rewrite map_app, filter_app. simpl. rewrite app_nil_r. exact Q.
Qed.

(** X7: what [handleGenerate] sends.  For a file whose type is a plain
    media type, a mask data URL with one comma and a prompt that is not
    blank, the one request carries the prompt as typed (not trimmed),
    the base64 encoding of the bytes of the file under the type of the
    file, and the text after the comma of the mask data URL under
    'image/png'. *)
Theorem handleGenerate_request (w : World) (s : State) (f : File)
    (header payload : jsstring) :
  originalImage s = Some f -> plainMime (type f) = true ->
  maskImage s = Some (header ++ COMMA :: payload) ->
  ~ In COMMA header -> ~ In COMMA payload ->
  trim (prompt s) <> [] -> reader w f = true ->
  requests (trace (run w (handleGenerate s) s))
  = [EGenerateContent
       {| model := lit "gemini-2.5-flash-image";
          parts :=
            [ TextPart (prompt s);
              InlineDataPart
                {| mimeType := type f;
                   data := Some (base64_encode (bytes f)) |};
              InlineDataPart
                {| mimeType := lit "image/png"; data := Some payload |} ];
          responseModalities := [IMAGE] |}].
Proof.
  exact (handleGenerate_sends w s f header payload).
Qed.

Lemma handleGenerate_request_witness :
  requests (trace (run (answering imageResponse) (handleGenerate readyState)
                     readyState))
  = [EGenerateContent
       {| model := lit "gemini-2.5-flash-image";
          parts :=
            [ TextPart (lit "a velvet armchair");
              InlineDataPart
                {| mimeType := lit "image/png";
                   data := Some (base64_encode [137; 80; 78]) |};
              InlineDataPart
                {| mimeType := lit "image/png";
                   data := Some (lit "QUJD") |} ];
          responseModalities := [IMAGE] |}].
Proof.
  refine (handleGenerate_request (answering imageResponse) readyState
            smallFile (lit "data:image/png;base64") (lit "QUJD")
            eq_refl eq_refl eq_refl _ _ _ eq_refl).
  - simpl. unfold COMMA. intuition discriminate.
  - simpl. unfold COMMA. intuition discriminate.
  - discriminate.
Defined.



Lemma Status_eqb_eq a b : Status_eqb a b = true <-> a = b.
Proof. destruct a, b; simpl; split; congruence. Qed.

Ltac settled :=
  simpl; try discriminate; try congruence;
  try (let X := fresh in intros X; exfalso; apply X; reflexivity);
  auto.

Lemma step_consistent w a s : consistent s -> consistent (step w a s).
Proof.
  intros [[I1 I1'] [I2 [I3 I4]]].
  assert (K : consistent s) by (repeat split; auto).
  destruct a as [[f|] | url | | | | v | v | ]; simpl step; auto.
  - unfold handleImageUpload. destruct (_ <? size f).
    + repeat split; settled.
      intros E. exists tooLarge. split; [discriminate|reflexivity].
    + repeat split; settled.
  - repeat split; settled.
  - unfold handleUseResultAsInput.
    destruct (generatedImage s) as [img|]; auto.
    destruct (truthy img); auto.
    destruct (dataURLtoFile img (lit "edited-image.png")); auto.
    repeat split; settled.
  - destruct (guard s) eqn:G.
    + unfold handleGenerate. rewrite G. simpl.
      repeat split; settled.
      intros E. exists incomplete. split; [discriminate|reflexivity].
    + destruct (guard_false s G) as [f [m [Ho _]]].
      destruct (handleGenerate_ends w s G) as [[d [-> Hd]] | [e ->]];
        repeat split; settled.
      * intros _. now exists d.
      * intros _. exists (errorMessage e).
        split; [apply errorMessage_not_empty | reflexivity].
Qed.

Lemma initial_consistent : consistent initial.
Proof.
  repeat split; simpl; try discriminate. intros X. now contradiction X.
Qed.

Lemma steps_consistent acts : consistent (steps acts initial).
Proof.
  generalize initial_consistent. generalize initial.
  induction acts as [|[w a] acts IH]; intros s0 K; simpl; auto.
  apply IH. now apply step_consistent.
Qed.

(** X11: an enabled 'Generate Makeover' button does generate.  In the
    editor, when the button is not disabled, [handleGenerate] passes its
    guard: it does not answer with 'Please upload an image, mask an
    area, and enter a prompt.' but sets the status to [Loading] and
    reads the original image. *)
Theorem enabled_button_generates (w : World) (s : State) :
  showEditor s = true -> isGenerateDisabled s = false ->
  guard s = false
  /\ exists f rest,
       originalImage s = Some f
       /\ trace (run w (handleGenerate s) s)
          = (EReadAsDataURL f, loading s) :: rest
       /\ status (loading s) = Loading.
Proof.
  intros E D.
  assert (G : guard s = false).
  { unfold showEditor, originalImageURL in E.
    apply andb_true_iff in E. destruct E as [_ E].
    unfold isGenerateDisabled in D.
    apply orb_false_iff in D. destruct D as [D D3].
    apply orb_false_iff in D. destruct D as [_ D2].
    unfold guard. now rewrite E, D2, D3. }
  split; [exact G|].
  destruct (guard_false s G) as [f [m [Ho _]]].
  exists f.
  destruct (handleGenerate_runs w s f G Ho); eexists; repeat split;
    exact Ho.
Qed.

Lemma enabled_button_generates_witness :
  showEditor readyState = true /\ isGenerateDisabled readyState = false
  /\ guard readyState = false.
Proof.
  assert (E : showEditor readyState = true) by reflexivity.
  assert (D : isGenerateDisabled readyState = false) by reflexivity.
  repeat (split; [assumption|]).
  exact (proj1 (enabled_button_generates (answering imageResponse)
                  readyState E D)).
Defined.

(** X12: 'Continue Editing' never fails on the data URL.  After any
    actions, the generated image, when there is one, always has the
    metadata 'data:image/png;base64': [dataURLtoFile] does not throw
    'Invalid data URL' on it, and the file it gives, if the payload is
    base64, has the type 'image/png'. *)
Theorem generated_image_converts (acts : list (World * Action))
    (img filename : jsstring) :
  generatedImage (steps acts initial) = Some img ->
  dataURLtoFile img filename <> inl (ErrorObj (lit "Invalid data URL"))
  /\ forall f, dataURLtoFile img filename = inr f ->
       type f = lit "image/png" /\ name f = filename.
Proof.
  intros Hg.
  destruct (steps_consistent acts) as [_ [I2 [I3 _]]].
  assert (St : status (steps acts initial) = Done)
    by (apply I2; rewrite Hg; discriminate).
  destruct (I3 St) as [d [_ Hd]]. rewrite Hg in Hd.
  assert (E : img = lit "data:image/png;base64," ++ d) by congruence.
  subst img. clear Hd Hg.
  assert (M : match_colon_semi
                (nth 0 (split COMMA (lit "data:image/png;base64," ++ d)) [])
              = Some (lit "image/png")).
  { change (lit "data:image/png;base64," ++ d)
      with (lit "data:image/png;base64" ++ COMMA :: d).
    rewrite split_at by (simpl; unfold COMMA; intuition discriminate).
    reflexivity. }
  unfold dataURLtoFile. rewrite M.
  destruct (atob _) as [e|bstr] eqn:A.
  - split; [|discriminate].
    unfold atob in A. destruct (forgiving_base64_decode _); [discriminate|].
    injection A as <-. discriminate.
  - split; [discriminate|]. intros f H. injection H as <-. now split.
Qed.

Lemma generated_image_converts_witness :
  generatedImage doneState = Some (lit "data:image/png;base64,QUJD")
  /\ dataURLtoFile (lit "data:image/png;base64,QUJD") (lit "edited-image.png")
     <> inl (ErrorObj (lit "Invalid data URL")).
Proof.
  assert (H : generatedImage doneState
              = Some (lit "data:image/png;base64,QUJD")) by reflexivity.
  split; [exact H|].
  exact (proj1 (generated_image_converts
                  [ (answering imageResponse, ImageUpload (Some smallFile));
                    (answering imageResponse,
                     MaskChange (lit "data:image/png;base64,QUJD"));
                    (answering imageResponse,
                     PromptChange (lit "a velvet armchair"));
                    (answering imageResponse, Generate) ]
                  (lit "data:image/png;base64,QUJD")
                  (lit "edited-image.png") H)).
Defined.

(** X13: a result fed back is sent back byte for byte.  When the
    generated image holds the base64 encoding of some bytes, 'Continue
    Editing' makes a file 'edited-image.png' of type 'image/png' with
    exactly these bytes the original image, moves to [Masking], and
    drops the mask, the prompt, the result and the error; and the next
    generation, once a mask and a prompt are given, sends the same
    base64 text as its original image. *)
Theorem result_fed_back (w : World) (s : State) (bs : list N)
    (header payload prompt' : jsstring) :
  generatedImage s = Some (lit "data:image/png;base64," ++ base64_encode bs) ->
  Forall (fun b => b < 256) bs ->
  ~ In COMMA header -> ~ In COMMA payload -> trim prompt' <> [] ->
  (forall f, reader w f = true) ->
  let file := {| name := lit "edited-image.png"; type := lit "image/png";
                 size := N.of_nat (List.length bs); bytes := bs |} in
  let s1 := handleUseResultAsInput s in
  let s2 := setPrompt prompt'
              (handleMaskChange (header ++ COMMA :: payload) s1) in
  originalImage s1 = Some file /\ status s1 = Masking
  /\ maskImage s1 = None /\ prompt s1 = [] /\ generatedImage s1 = None
  /\ error s1 = None
  /\ clearCanvasCounter s1 = clearCanvasCounter s + 1
  /\ requests (trace (run w (handleGenerate s2) s2))
     = [EGenerateContent
          {| model := lit "gemini-2.5-flash-image";
             parts :=
               [ TextPart prompt';
                 InlineDataPart
                   {| mimeType := lit "image/png";
                      data := Some (base64_encode bs) |};
                 InlineDataPart
                   {| mimeType := lit "image/png"; data := Some payload |} ];
             responseModalities := [IMAGE] |}].
Proof.
  intros Hg Hb Hh Hp Ht Hr file s1 s2.
  assert (T : truthy (lit "data:image/png;base64," ++ base64_encode bs) = true)
    by reflexivity.
  assert (F : dataURLtoFile (lit "data:image/png;base64," ++ base64_encode bs)
                (lit "edited-image.png") = inr file).
  { apply (dataURLtoFile_dataurl (lit "image/png") bs eq_refl Hb). }
  assert (S1 : s1 = setClearCanvasCounter (fun c => c + 1)
                      (setError None
                         (setPrompt []
                            (setMaskImage None
                               (setGeneratedImage None
                                  (setStatus Masking
                                     (setOriginalImage (Some file) s))))))).
  { unfold s1, handleUseResultAsInput. now rewrite Hg, T, F. }
  unfold s2. rewrite S1. repeat split.
  match goal with
  | |- context [handleGenerate ?st] =>
      exact (handleGenerate_sends w st file header payload
               eq_refl eq_refl eq_refl Hh Hp Ht (Hr _))
  end.
Qed.

Lemma result_fed_back_witness :
  originalImage (handleUseResultAsInput doneState)
  = Some {| name := lit "edited-image.png"; type := lit "image/png";
            size := 3; bytes := [65; 66; 67] |}.
Proof.
  refine (proj1 (result_fed_back (answering imageResponse) doneState
                   [65; 66; 67] (lit "data:image/png;base64") (lit "QUJD")
                   (lit "a sofa") eq_refl _ _ _ _ (fun _ => eq_refl))).
  - repeat (constructor; [reflexivity|]). constructor.
  - simpl. unfold COMMA. intuition discriminate.
  - simpl. unfold COMMA. intuition discriminate.
  - discriminate.
Defined.

End AppMore.

(* ================================================================== *)
(** * [App] between its awaits *)
(* ================================================================== *)

Module LiveFacts.

Import Js Dom Async Gemini App AppView Live Samples MoreSamples.
Import JsFacts AsyncFacts GeminiFacts ConversionFacts AppFacts AppMore.
Open Scope N_scope.

(** ** The calls *)

Lemma replace_length i t ts : List.length (replace i t ts) = List.length ts.
Proof.
  revert i. induction ts as [|t0 ts IH]; intros [|i]; simpl; auto.
Qed.

Lemma replace_nth i t ts t0 :
  nth_error ts i = Some t0 -> nth_error (replace i t ts) i = Some t.
Proof.
  revert i. induction ts as [|t1 ts IH]; intros [|i]; simpl;
    try discriminate; auto.
Qed.

Lemma nth_last (t : Task) ts : nth_error (ts ++ [t]) (List.length ts) = Some t.
Proof. induction ts as [|t1 ts IH]; simpl; auto. Qed.

(** Replacing a call that reads by one that does not leaves one reader
    less; replacing another one by one that does not read leaves as
    many. *)
Lemma count_replace i t ts t0 :
  nth_error ts i = Some t0 -> isReading t = false ->
  (count isReading (replace i t ts) + (if isReading t0 then 1 else 0)
   = count isReading ts)%nat.
Proof.
  unfold count. intros H T. revert i H.
  induction ts as [|t1 ts IH]; intros [|i] H; simpl in *; try discriminate.
  - injection H as ->. rewrite T. destruct (isReading t0); simpl; lia.
  - specialize (IH i H). destruct (isReading t1); simpl; lia.
Qed.

Ltac counting :=
  unfold accounted, count in *; simpl in *;
  rewrite ?filter_app, ?length_app, ?replace_length in *; simpl in *;
  try lia.

Lemma catchBlock_accounted i error c t0 :
  nth_error (calls c) i = Some t0 ->
  accounted c -> accounted (catchBlock i error c).
Proof.
  intros H [R S].
  pose proof (count_replace i Settled (calls c) t0 H eq_refl) as CS.
  pose proof (count_replace i Rejected (calls c) t0 H eq_refl) as CR.
  destruct error as [e|]; counting.
Qed.

Lemma step_accounted ev c : accounted c -> accounted (step ev c).
Proof.
  intros K. pose proof K as [R S].
  destruct ev as [a | i | i | i response | i error]; simpl.
  - destruct a; try exact K. unfold handler, invoke.
    destruct (guard (cells c)); [exact K|].
    destruct (originalImage (cells c)) as [f|]; [|exact K].
    destruct (maskImage (cells c)) as [m|]; [|exact K].
    counting.
  - unfold readLoaded.
    destruct (nth_error (calls c) i) as [[f m p| | | |]|] eqn:H;
      try exact K.
    destruct (onload (dataURLofFile f)) as [r|].
    + pose proof (count_replace i
                    (Requesting
                       (request (base64 r) (fileMimeType r)
                          (nth_error (split COMMA m) 1) p))
                    (calls c) _ H eq_refl) as C.
      counting.
    + pose proof (count_replace i Stuck (calls c) _ H eq_refl) as C.
      counting.
  - unfold readFailed.
    destruct (nth_error (calls c) i) as [[f m p| | | |]|] eqn:H;
      try exact K.
    now apply (catchBlock_accounted i _ c _ H).
  - unfold answered.
    destruct (nth_error (calls c) i) as [[|req| | |]|] eqn:H; try exact K.
    destruct (extractImage_cases (S := App.State) response)
      as [[d [-> _]] | [msg [-> _]]].
    + pose proof (count_replace i Settled (calls c) _ H eq_refl) as C.
      counting.
    + apply (catchBlock_accounted i _ _ (Requesting req)); [exact H|].
      counting.
  - unfold refused.
    destruct (nth_error (calls c) i) as [[|req| | |]|] eqn:H; try exact K.
    apply (catchBlock_accounted i _ _ (Requesting req)); [exact H|].
    counting.
Qed.

Lemma steps_accounted evs c : accounted c -> accounted (steps evs c).
Proof.
  revert c. induction evs as [|ev evs IH]; intros c K; simpl; auto.
  apply IH. now apply step_accounted.
Qed.

Lemma initial_accounted : accounted initial.
Proof. split; simpl; auto. Qed.

(** ** The cells *)

Ltac keeping :=
  unfold kept; simpl; repeat apply conj;
  try (intros ?; discriminate); try (intros [?|?]; discriminate).

Lemma kept_loading s : originalImage s <> None -> kept (loading s).
Proof. intros H. keeping. now intros _. Qed.

Lemma kept_succeeded d s : d <> [] -> kept (succeeded d s).
Proof. intros H. keeping. intros _. now exists d. Qed.

Lemma kept_failed e s : kept (failed e s).
Proof.
  keeping. intros _. exists (errorMessage e).
  split; [apply errorMessage_not_empty | reflexivity].
Qed.

Lemma kept_setError m s : m <> [] -> kept s -> kept (setError (Some m) s).
Proof.
  intros H [I1 [I2 [I3 I4]]]. unfold kept. simpl.
  repeat apply conj; auto.
  intros _. now exists m.
Qed.

Lemma kept_handler a c :
  a <> Generate -> kept (cells c) -> kept (cells (handler a c)).
Proof.
  intros N K.
  destruct a as [[f|] | url | | | | v | v | ]; simpl; auto;
    try (now contradiction N).
  - unfold handleImageUpload. destruct (_ <? size f).
    + apply kept_setError; [discriminate|exact K].
    + keeping. intros _. split; [discriminate|reflexivity].
  - keeping. now intros _.
  - unfold handleUseResultAsInput.
    destruct (generatedImage (cells c)) as [img|]; auto.
    destruct (truthy img); auto.
    destruct (dataURLtoFile img (lit "edited-image.png")); auto.
    keeping. intros _. split; [discriminate|reflexivity].
Qed.

Lemma kept_catchBlock i error c :
  kept (cells c) -> kept (cells (catchBlock i error c)).
Proof.
  intros K. destruct error as [e|]; simpl; [apply kept_failed | exact K].
Qed.

Lemma step_kept ev c : kept (cells c) -> kept (cells (step ev c)).
Proof.
  intros K.
  destruct ev as [a | i | i | i response | i error]; simpl.
  - destruct a; try (apply kept_handler; [discriminate|exact K]).
    unfold handler, invoke. destruct (guard (cells c)) eqn:G.
    + apply kept_setError; [discriminate|exact K].
    + destruct (guard_false _ G) as [f [m [Ho [Hm _]]]].
      rewrite Ho, Hm. simpl. apply kept_loading. congruence.
  - unfold readLoaded.
    destruct (nth_error (calls c) i) as [[f m p| | | |]|]; try exact K.
    now destruct (onload (dataURLofFile f)).
  - unfold readFailed.
    destruct (nth_error (calls c) i) as [[f m p| | | |]|]; try exact K.
    now apply kept_catchBlock.
  - unfold answered.
    destruct (nth_error (calls c) i) as [[|req| | |]|]; try exact K.
    destruct (extractImage_cases (S := App.State) response)
      as [[d [-> [_ Hd]]] | [msg [-> _]]].
    + simpl. now apply kept_succeeded.
    + now apply kept_catchBlock.
  - unfold refused.
    destruct (nth_error (calls c) i) as [[|req| | |]|]; try exact K.
    now apply kept_catchBlock.
Qed.

Lemma steps_kept evs c : kept (cells c) -> kept (cells (steps evs c)).
Proof.
  revert c. induction evs as [|ev evs IH]; intros c K; simpl; auto.
  apply IH. now apply step_kept.
Qed.

Lemma initial_kept : kept (cells initial).
Proof. keeping. now intros _. Qed.

(** X5: the life of a call of [handleGenerate], whatever happens between
    its awaits.  Over any events from the initial component, every call
    past the guard has started exactly one read, and the requests sent
    are at most the calls whose read has ended: no call sends twice.  A
    call past its guard sets the status [Loading] and starts the read of
    the original image of its render; when the read has loaded, the one
    request is sent, with the mask and the prompt of that render.  When
    the service rejects with a value that has properties, the call logs
    twice, sets the message and the status [Error] and returns.  When it
    rejects with [null] or [undefined], the call logs twice and its
    [catch] block throws: the promise of the call is rejected and no
    cell is set, so a status [Loading] stays.  The outside calls are not
    bound to the status [Loading]: in the run [startedOver], of offered
    controls, the request is sent in status [Idle]. *)
Theorem handleGenerate_calls (evs : list Event) :
  let c := steps evs initial in
  count isRead (outside c) = List.length (calls c)
  /\ (count isSent (outside c) + count isReading (calls c)
      <= List.length (calls c))%nat
  /\ (forall originalImage maskImage,
        guard (cells c) = false ->
        App.originalImage (cells c) = Some originalImage ->
        App.maskImage (cells c) = Some maskImage ->
        step (Handler Generate) c
        = {| cells := loading (cells c);
             calls := calls c
                      ++ [Reading originalImage maskImage (prompt (cells c))];
             outside := outside c ++ [Read originalImage] |})
  /\ (forall i originalImage maskImage prompt,
        nth_error (calls c) i = Some (Reading originalImage maskImage prompt) ->
        exists r,
          onload (dataURLofFile originalImage) = Some r
          /\ let req := request (base64 r) (fileMimeType r)
                          (nth_error (split COMMA maskImage) 1) prompt in
             let c' := step (Onload i) c in
             cells c' = cells c
             /\ nth_error (calls c') i = Some (Requesting req)
             /\ outside c' = outside c ++ [Sent req])
  /\ (forall i req e,
        nth_error (calls c) i = Some (Requesting req) ->
        let c' := step (RejectedWith i (Object e)) c in
        cells c' = failed e (cells c)
        /\ nth_error (calls c') i = Some Settled
        /\ outside c'
           = outside c ++ [Console (serviceLog (Object e));
                           Console [Value (Object e)]])
  /\ (forall i req,
        nth_error (calls c) i = Some (Requesting req) ->
        let c' := step (RejectedWith i Nullish) c in
        cells c' = cells c
        /\ nth_error (calls c') i = Some Rejected
        /\ outside c'
           = outside c ++ [Console (serviceLog Nullish);
                           Console [Value Nullish]])
  /\ (let sent := steps startedOver initial in
      possible startedOver initial = true
      /\ status (cells sent) = Idle
      /\ outside sent
         = [Read smallFile;
            Sent (request (Some (base64_encode [137; 80; 78]))
                    (lit "image/png") (Some (lit "QUJD"))
                    (lit "a velvet armchair"))]).
Proof.
  intros c.
  destruct (steps_accounted evs initial initial_accounted) as [R S].
  fold c in R, S. clearbody c.
  split; [exact R|]. split; [exact S|]. repeat apply conj.
  - intros f m G Ho Hm. simpl. unfold handler, invoke.
    now rewrite G, Ho, Hm.
  - intros i f m p H. destruct (onload_total f) as [r Hr].
    exists r. split; [exact Hr|]. simpl. unfold readLoaded.
    rewrite H, Hr. simpl. repeat split.
    now apply (replace_nth i _ _ _ H).
  - intros i req e H. simpl. unfold refused. rewrite H. simpl.
    repeat split.
    + now apply (replace_nth i _ _ _ H).
    + now rewrite <- app_assoc.
  - intros i req H. simpl. unfold refused. rewrite H. simpl.
    repeat split.
    + now apply (replace_nth i _ _ _ H).
    + now rewrite <- app_assoc.
  - reflexivity.
  - reflexivity.
  - reflexivity.
Qed.

(** A spinner that stays: the service rejects with [undefined]. *)
Lemma handleGenerate_calls_witness :
  nth_error (calls requesting) 0
  = Some (Requesting
            (request (Some (base64_encode [137; 80; 78])) (lit "image/png")
               (Some (lit "QUJD")) (lit "a velvet armchair")))
  /\ status (cells (step (RejectedWith 0 Nullish) requesting)) = Loading
  /\ nth_error (calls (step (RejectedWith 0 Nullish) requesting)) 0
     = Some Rejected.
Proof.
  assert (H : nth_error (calls requesting) 0
              = Some (Requesting
                        (request (Some (base64_encode [137; 80; 78]))
                           (lit "image/png") (Some (lit "QUJD"))
                           (lit "a velvet armchair")))) by reflexivity.
  split; [exact H|].
  pose proof (proj1 (proj2 (proj2 (proj2 (proj2 (proj2
                (handleGenerate_calls
                   [ Handler (ImageUpload (Some smallFile));
                     Handler (MaskChange (lit "data:image/png;base64,QUJD"));
                     Handler (PromptChange (lit "a velvet armchair"));
                     Handler Generate;
                     Onload 0 ]))))))
                0%nat _ H) as [C [T _]].
  split; [|exact T].
  change (status (cells (step (RejectedWith 0 Nullish) requesting))
          = Loading).
  unfold requesting. rewrite C. reflexivity.
Defined.

(** X9: what the cells keep true under every interleaving.  After any
    events from the initial component: in status [Idle] there is neither
    an original nor a generated image; in status [Masking] or [Loading]
    there is an original image and no generated one; in status [Done]
    there is a generated image, a data URL 'data:image/png;base64,...'
    with a payload that is not empty; in status [Error] there is an
    error message that is not empty.  An original image is not kept with
    every status but [Idle], nor a generated image by status [Done]
    alone: the run [abandoned], of offered controls, ends in status
    [Done] without an original image, and the run [overtaken] in status
    [Error] with the generated image of an earlier call. *)
Theorem cells_kept (evs : list Event) :
  let s := cells (steps evs initial) in
  (status s = Idle -> originalImage s = None /\ generatedImage s = None)
  /\ (status s = Masking \/ status s = Loading ->
      originalImage s <> None /\ generatedImage s = None)
  /\ (status s = Done ->
      exists d, d <> []
        /\ generatedImage s = Some (lit "data:image/png;base64," ++ d))
  /\ (status s = Error -> exists m, m <> [] /\ error s = Some m)
  /\ (possible abandoned initial = true
      /\ status (cells (steps abandoned initial)) = Done
      /\ originalImage (cells (steps abandoned initial)) = None)
  /\ (possible overtaken initial = true
      /\ status (cells (steps overtaken initial)) = Error
      /\ generatedImage (cells (steps overtaken initial))
         = Some (lit "data:image/png;base64,QUJD")).
Proof.
  intros s.
  destruct (steps_kept evs initial initial_kept) as [I1 [I2 [I3 I4]]].
  fold s in I1, I2, I3, I4.
  repeat apply conj; try assumption; reflexivity.
Qed.

Lemma cells_kept_witness :
  status (cells (steps abandoned initial)) = Done
  /\ exists d, d <> []
       /\ generatedImage (cells (steps abandoned initial))
          = Some (lit "data:image/png;base64," ++ d).
Proof.
  assert (H : status (cells (steps abandoned initial)) = Done)
    by reflexivity.
  split; [exact H|].
  exact (proj1 (proj2 (proj2 (cells_kept abandoned))) H).
Defined.

(** X10: what the page shows under every interleaving.  After any
    events from the initial component the upload panel and the editor
    are never shown together: the upload panel is shown exactly in
    status [Idle], the editor in status [Masking] and [Loading] and, in
    status [Done] and [Error], when there is an original image; and the
    result area of the editor shows exactly one of the spinner, the
    failure with its message, the result image and the placeholder.
    The page can be left with neither panel: the run [abandoned], of
    offered controls, ends with nothing shown, and nothing offered to
    go on with. *)
Theorem panels_shown (evs : list Event) :
  let s := cells (steps evs initial) in
  (shown [showUpload s; showEditor s] <= 1)%nat
  /\ (showUpload s = true <-> status s = Idle)
  /\ (status s = Masking \/ status s = Loading -> showEditor s = true)
  /\ (status s = Done \/ status s = Error ->
      showEditor s = isSome (originalImage s))
  /\ shown [showSpinner s; showFailure s; showResult s; showPlaceholder s]
     = 1%nat
  /\ (let left := cells (steps abandoned initial) in
      possible abandoned initial = true
      /\ shown [showUpload left; showEditor left] = 0%nat
      /\ forall a, offered a left = false).
Proof.
  intros s.
  destruct (steps_kept evs initial initial_kept) as [I1 [I2 [I3 I4]]].
  fold s in I1, I2, I3, I4. clearbody s.
  assert (HI : status s = Idle -> truthy_opt (generatedImage s) = false).
  { intros E. destruct (I1 E) as [_ ->]. reflexivity. }
  assert (HM : status s = Masking \/ status s = Loading ->
               isSome (originalImage s) = true
               /\ truthy_opt (generatedImage s) = false).
  { intros E. destruct (I2 E) as [O ->]. split; [|reflexivity].
    destruct (originalImage s); [reflexivity|now contradiction O]. }
  assert (HD : status s = Done -> truthy_opt (generatedImage s) = true).
  { intros D. destruct (I3 D) as [d [_ ->]]. reflexivity. }
  assert (HE : status s = Error -> truthy_opt (error s) = true).
  { intros E. destruct (I4 E) as [m [Hm ->]]. now apply truthy_not_nil. }
  clear I1 I2 I3 I4.
  split; [|split; [|split; [|split; [|split]]]].
  - unfold shown, showUpload, showEditor.
    destruct (status s); simpl; destruct (originalImageURL s); simpl; lia.
  - apply Status_eqb_eq.
  - intros E. destruct (HM E) as [O _].
    unfold showEditor, originalImageURL. rewrite O.
    destruct E as [-> | ->]; reflexivity.
  - intros E. unfold showEditor, originalImageURL.
    destruct E as [-> | ->]; reflexivity.
  - unfold shown, showSpinner, showFailure, showResult, showPlaceholder.
    destruct (status s) eqn:St; simpl.
    + now rewrite HI.
    + destruct HM as [_ ->]; [now left|reflexivity].
    + destruct HM as [_ ->]; [now right|reflexivity].
    + now rewrite HD.
    + rewrite HE by reflexivity.
      now destruct (truthy_opt (generatedImage s)).
  - repeat apply conj; try reflexivity.
    intros a. destruct a; reflexivity.
Qed.

Lemma panels_shown_witness :
  status (cells (steps abandoned initial)) = Done
  /\ showEditor (cells (steps abandoned initial)) = false.
Proof.
  assert (H : status (cells (steps abandoned initial)) = Done)
    by reflexivity.
  split; [exact H|].
  exact (proj1 (proj2 (proj2 (proj2 (panels_shown abandoned))))
           (or_introl H)).
Defined.

(** X22: the awaited [handleGenerate] of [App.step] is the call that
    nothing interrupts.  When the events of one call follow each other
    with no handler in between, in a world that answers with a response
    or rejects with a value that has properties, the cells end as
    [App.step] leaves them; and every other action sets the cells as
    its handler in [App.step]. *)
Theorem uninterrupted_is_step (w : World) (c : Component) :
  cells (steps (uninterrupted w c) c) = App.step w Generate (cells c)
  /\ (forall a, a <> Generate ->
        cells (step (Handler a) c) = App.step w a (cells c)).
Proof.
  split.
  - unfold uninterrupted. simpl App.step.
    destruct (guard (cells c)) eqn:G.
    + simpl. unfold handler, invoke, handleGenerate. now rewrite G.
    + destruct (guard_false _ G) as [f [m [Ho [Hm _]]]].
      destruct (onload_total f) as [r Hr].
      rewrite (run_handleGenerate w _ f m r G Ho Hm Hr).
      rewrite Ho, Hm, Hr.
      destruct (reader w f).
      * set (req := request (base64 r) (fileMimeType r)
                      (nth_error (split COMMA m) 1) (prompt (cells c))).
        destruct (gemini w req) as [e|response] eqn:E; unfold req in E.
        -- rewrite (run_rejected w _ _ _ _ _ e E).
           simpl. unfold handler, invoke. rewrite G, Ho, Hm.
           unfold readLoaded. simpl. rewrite nth_last, Hr. simpl.
           unfold refused. simpl.
           rewrite (replace_nth _ _ _ _ (nth_last _ _)). reflexivity.
        -- destruct (extractImage_cases (S := App.State) response)
             as [[d [X _]] | [msg [X _]]].
           ++ rewrite (run_returned w _ _ _ _ _ response d E X).
              simpl. unfold handler, invoke. rewrite G, Ho, Hm.
              unfold readLoaded. simpl. rewrite nth_last, Hr. simpl.
              unfold answered. simpl.
              rewrite (replace_nth _ _ _ _ (nth_last _ _)).
              now rewrite X.
           ++ rewrite (run_threw w _ _ _ _ _ response _ E X).
              simpl. unfold handler, invoke. rewrite G, Ho, Hm.
              unfold readLoaded. simpl. rewrite nth_last, Hr. simpl.
              unfold answered. simpl.
              rewrite (replace_nth _ _ _ _ (nth_last _ _)).
              now rewrite X.
      * simpl. unfold handler, invoke. rewrite G, Ho, Hm.
        unfold readFailed. simpl. now rewrite nth_last.
  - intros a N. destruct a; try reflexivity. now contradiction N.
Qed.

Lemma uninterrupted_is_step_witness :
  cells (step (Handler StartOver) requesting)
  = App.step (answering imageResponse) StartOver (cells requesting).
Proof.
  refine (proj2 (uninterrupted_is_step (answering imageResponse) requesting)
            StartOver _).
  discriminate.
Defined.

End LiveFacts.

(* ================================================================== *)
(** * More about the masking canvas *)
(* ================================================================== *)

Module CanvasMore.

Import Js MaskingCanvas CanvasSpec Samples MoreSamples.
Import MaskingCanvasFacts.
Open Scope N_scope.

Ltac branches :=
  repeat match goal with
         | |- context [match ?x with _ => _ end] =>
             lazymatch x with
             | context [match _ with _ => _ end] => fail
             | _ => destruct x eqn:?
             end
         end.

Section Events.

Variable toDataURL : Canvas -> jsstring.

Lemma step_coherent ev s : coherent s -> coherent (step toDataURL ev s).
Proof.
  destruct s as [bsz bcol cont ic dc drawing lp dims tm mc].
  unfold coherent, isMounted. simpl. intros [H1 H2].
  destruct ev as [e | e | | | image | | n]; simpl;
    unfold startDrawing, draw, stopDrawing, drawImage_onload,
      drawImage_timeout, clearEffect, clearCanvas, getCoordinates; simpl;
    branches; simpl in *; subst; simpl in *;
    try (split; [reflexivity | auto]); try (split; auto; fail);
    try discriminate.
Qed.

Lemma steps_coherent evs s :
  coherent s -> coherent (steps toDataURL evs s).
Proof.
  revert s. induction evs as [|ev evs IH]; intros s K; simpl; auto.
  apply IH. now apply step_coherent.
Qed.

(** X14: [isDrawing] and the last point go together.  From a state
    in which they do (as when the component mounts), after any events
    the component is drawing exactly when a last point is recorded, and
    then the drawing canvas is there; so while drawing, every pointer
    move over a canvas with a 2D context paints a stroke: none is
    dropped for want of a last point. *)
Theorem drawing_has_last_point (s0 : State) (evs : list Event) :
  coherent s0 ->
  let s := steps toDataURL evs s0 in
  isDrawing s = isSome (lastPoint s)
  /\ (isDrawing s = true ->
      exists canvas last,
        drawingCanvas s = Some canvas /\ lastPoint s = Some last
        /\ (context2d canvas = true ->
            forall e,
              added (drawingCanvas s)
                (drawingCanvas (step toDataURL (MouseMove e) s))
              = segment (brushColor s) (brushSize s) last
                  (pointOf canvas e))).
Proof.
  intros K s. destruct (steps_coherent evs s0 K) as [H1 H2].
  fold s in H1, H2. clearbody s. split; [exact H1|].
  intros D. specialize (H2 D). unfold isMounted in H2.
  destruct (drawingCanvas s) as [canvas|] eqn:C; [|discriminate].
  rewrite D in H1. destruct (lastPoint s) as [last|] eqn:L; [|discriminate].
  exists canvas, last. repeat split. intros X e.
  apply added_suffix. simpl. unfold draw, getCoordinates.
  rewrite D, C, L, X. reflexivity.
Qed.

(** Moves while drawing add one segment each, from point to point. *)
Lemma moves_paint es : forall s canvas last,
  drawingCanvas s = Some canvas -> context2d canvas = true ->
  isDrawing s = true -> lastPoint s = Some last ->
  let s' := steps toDataURL (map MouseMove es) s in
  drawingCanvas s'
  = Some (call (polyline (brushColor s) (brushSize s) last
                  (map (pointOf canvas) es)) canvas)
  /\ lastPoint s' = Some (lastOf last (map (pointOf canvas) es))
  /\ isDrawing s' = true /\ maskChanges s' = maskChanges s
  /\ imageCanvas s' = imageCanvas s.
Proof.
  induction es as [|e es IH]; intros s canvas last C X D L; simpl.
  - rewrite C. repeat split; auto.
    destruct canvas. unfold call. simpl. now rewrite app_nil_r.
  - unfold draw at 1 2 3 4 5. unfold getCoordinates. rewrite D, C, L, X.
    simpl negb. cbv iota.
    set (p := {| x := (clientX e - rectLeft canvas)%float;
                 y := (clientY e - rectTop canvas)%float |}).
    set (c1 := call (segment (brushColor s) (brushSize s) last p) canvas).
    set (s1 := setLastPoint (Some p) (setDrawingCanvas (Some c1) s)).
    destruct (IH s1 c1 p eq_refl X D eq_refl) as [H1 [H2 [H3 [H4 H5]]]].
    repeat split; auto.
    rewrite H1. f_equal. unfold c1, call. simpl.
    now rewrite <- app_assoc.
Qed.

(** A press, moves and a release. *)
Lemma stroke_runs (s : State) (canvas : Canvas)
    (press : MouseEvent) (moves : list MouseEvent) :
  drawingCanvas s = Some canvas -> context2d canvas = true ->
  let line := polyline (brushColor s) (brushSize s) (pointOf canvas press)
                (map (pointOf canvas) moves) in
  let s' := steps toDataURL
              (MouseDown press :: map MouseMove moves ++ [MouseUp]) s in
  drawingCanvas s' = Some (call line canvas)
  /\ added (drawingCanvas s) (drawingCanvas s') = line
  /\ imageCanvas s' = imageCanvas s
  /\ reports s s' = [toDataURL (call line canvas)]
  /\ isDrawing s' = false /\ lastPoint s' = None.
Proof.
  intros C X line s'.
  assert (S' : s' = step toDataURL MouseUp
                      (steps toDataURL (map MouseMove moves)
                         (step toDataURL (MouseDown press) s))).
  { unfold s'. simpl. now rewrite steps_snoc. }
  set (s1 := step toDataURL (MouseDown press) s) in *.
  assert (E1 : s1 = setLastPoint (Some (pointOf canvas press))
                      (setIsDrawing true s)).
  { unfold s1. simpl. unfold startDrawing, getCoordinates. now rewrite C. }
  destruct (moves_paint moves s1 canvas (pointOf canvas press))
    as [H1 [H2 [H3 [H4 H5]]]]; try (rewrite ?E1; simpl; auto; fail).
  assert (B : brushColor s1 = brushColor s /\ brushSize s1 = brushSize s)
    by (rewrite E1; split; reflexivity).
  destruct B as [B1 B2]. rewrite B1, B2 in H1. fold line in H1.
  rewrite S'. simpl. unfold stopDrawing. rewrite H3. simpl. rewrite H1.
  repeat split.
  - simpl. exact H1.
  - unfold added. simpl. rewrite H1, C. simpl.
    now rewrite skipn_app, skipn_all, Nat.sub_diag.
  - simpl. rewrite H5, E1. reflexivity.
  - unfold reports. simpl. rewrite H4, E1. simpl.
    now rewrite skipn_app, skipn_all, Nat.sub_diag.
Qed.

(** X15: a stroke is one connected line.  A press, any number of moves
    and a release over a canvas with a 2D context add to the drawing
    canvas exactly the segments press-to-first-move, move-to-move, ...,
    each one starting where the one before ended; the image canvas is
    untouched; and [onMaskChange] is called once, at the release, with
    the serialization of the canvas that holds the whole line. *)
Theorem stroke_is_connected (s : State) (canvas : Canvas)
    (press : MouseEvent) (moves : list MouseEvent) :
  drawingCanvas s = Some canvas -> context2d canvas = true ->
  let line := polyline (brushColor s) (brushSize s) (pointOf canvas press)
                (map (pointOf canvas) moves) in
  let s' := steps toDataURL
              (MouseDown press :: map MouseMove moves ++ [MouseUp]) s in
  drawingCanvas s' = Some (call line canvas)
  /\ added (drawingCanvas s) (drawingCanvas s') = line
  /\ imageCanvas s' = imageCanvas s
  /\ reports s s' = [toDataURL (call line canvas)]
  /\ isDrawing s' = false /\ lastPoint s' = None.
Proof.
  exact (stroke_runs s canvas press moves).
Qed.

Lemma reports_same before after :
  maskChanges after = maskChanges before -> reports before after = [].
Proof. intros H. unfold reports. rewrite H. apply skipn_all. Qed.

Lemma reports_one before after url :
  maskChanges after = maskChanges before ++ [url] ->
  reports before after = [url].
Proof.
  intros H. unfold reports.
  now rewrite H, skipn_app, skipn_all, Nat.sub_diag.
Qed.

(** X16: when [onMaskChange] is called.  A release or a leave while
    drawing, with the drawing canvas there, makes one call, with the
    serialized drawing canvas; the effect of a positive clear counter on
    a drawing canvas with a 2D context makes one call, with the empty
    string.  Nothing else calls: not a release or a leave when not
    drawing or without the canvas, not the effect when the counter is 0,
    the canvas is missing or it has no 2D context, and never a press, a
    move, the load of the image or the timer of [drawImage].  So one
    event makes at most one call. *)
Theorem mask_reports (s : State) (ev : Event) :
  let r := reports s (step toDataURL ev s) in
  (forall canvas,
     isStop ev = true -> isDrawing s = true ->
     drawingCanvas s = Some canvas -> r = [toDataURL canvas])
  /\ (forall n canvas,
        ev = ClearCounter n -> 0 < n ->
        drawingCanvas s = Some canvas -> context2d canvas = true ->
        r = [[]])
  /\ (isStop ev = true ->
      isDrawing s = false \/ drawingCanvas s = None -> r = [])
  /\ (forall n,
        ev = ClearCounter n ->
        n = 0 \/ drawingCanvas s = None
        \/ (exists canvas,
              drawingCanvas s = Some canvas /\ context2d canvas = false) ->
        r = [])
  /\ (isStop ev = false -> (forall n, ev <> ClearCounter n) -> r = [])
  /\ (List.length r <= 1)%nat.
Proof.
  intros r. unfold r. clear r.
  assert (Stop : forall s0,
            stopDrawing toDataURL s0
            = if isDrawing s0 then
                match drawingCanvas s0 with
                | Some c =>
                    onMaskChange (toDataURL c)
                      (setLastPoint None (setIsDrawing false s0))
                | None => setLastPoint None (setIsDrawing false s0)
                end
              else s0).
  { intros s0. unfold stopDrawing. destruct (isDrawing s0); [|reflexivity].
    simpl. now destruct (drawingCanvas s0). }
  repeat apply conj.
  - intros c S D C.
    destruct ev; try discriminate; simpl; rewrite Stop, D, C;
      now apply reports_one.
  - intros n c -> P C X. simpl. unfold clearEffect.
    apply N.ltb_lt in P. rewrite P. unfold clearCanvas. rewrite C, X.
    now apply reports_one.
  - intros S H.
    destruct ev; try discriminate; simpl; rewrite Stop;
      (destruct H as [-> | H]; [now apply reports_same|]);
      rewrite H; destruct (isDrawing s); now apply reports_same.
  - intros n -> H. simpl. unfold clearEffect.
    destruct (0 <? n) eqn:P; [|now apply reports_same].
    destruct H as [-> | [H | [c [H X]]]]; [discriminate| |];
      unfold clearCanvas; rewrite H; [|rewrite X]; now apply reports_same.
  - intros S H.
    destruct ev as [e | e | | | image | | n]; try discriminate; simpl;
      apply reports_same.
    + unfold startDrawing. now destruct (getCoordinates e s).
    + unfold draw, getCoordinates. branches; reflexivity.
    + unfold drawImage_onload. branches; reflexivity.
    + unfold drawImage_timeout. branches; reflexivity.
    + now contradiction (H n).
  - destruct ev as [e | e | | | image | | n]; simpl.
    + rewrite reports_same; [simpl; lia|].
      unfold startDrawing. now destruct (getCoordinates e s).
    + rewrite reports_same; [simpl; lia|].
      unfold draw, getCoordinates. branches; reflexivity.
    + rewrite Stop. destruct (isDrawing s);
        [|rewrite reports_same; simpl; auto].
      destruct (drawingCanvas s) as [c|];
        [erewrite reports_one by reflexivity
        |rewrite reports_same by reflexivity]; simpl; lia.
    + rewrite Stop. destruct (isDrawing s);
        [|rewrite reports_same; simpl; auto].
      destruct (drawingCanvas s) as [c|];
        [erewrite reports_one by reflexivity
        |rewrite reports_same by reflexivity]; simpl; lia.
    + rewrite reports_same; [simpl; lia|].
      unfold drawImage_onload. branches; reflexivity.
    + rewrite reports_same; [simpl; lia|].
      unfold drawImage_timeout. branches; reflexivity.
    + unfold clearEffect. destruct (0 <? n);
        [|rewrite reports_same; simpl; auto].
      unfold clearCanvas. destruct (drawingCanvas s) as [c|];
        [|rewrite reports_same; simpl; auto].
      destruct (context2d c);
        [erewrite reports_one by reflexivity
        |rewrite reports_same by reflexivity]; simpl; lia.
Qed.

(** X17: a resize wipes the mask without a word.  When the timer of
    [drawImage] runs with both canvases there and a 2D context on the
    image canvas, it assigns the width and the height of the drawing
    canvas, which resets its bitmap, and [onMaskChange] is not called:
    the parent keeps the data URL of the strokes that are gone. *)
Theorem resize_wipes_silently (s : State) (t : Timer) (rest : list Timer)
    (ic dc : Canvas) :
  timers s = t :: rest -> imageCanvas s = Some ic -> context2d ic = true ->
  drawingCanvas s = Some dc ->
  let s' := step toDataURL Timeout s in
  added (drawingCanvas s) (drawingCanvas s')
  = [SetWidth (newWidth t); SetHeight (newHeight t)]
  /\ mutated toDataURL Timeout s = true
  /\ maskChanges s' = maskChanges s
  /\ timers s' = rest.
Proof.
  intros T I X D s'.
  assert (S' : s' = setDrawingCanvas
                      (Some (setHeight (newHeight t)
                               (setWidth (newWidth t) dc)))
                      (setImageCanvas
                         (Some (call [DrawImage (timer_image t) 0 0
                                        (newWidth t) (newHeight t)]
                                  (setHeight (newHeight t)
                                     (setWidth (newWidth t) ic))))
                         (setTimers rest s))).
  { unfold s'. simpl. rewrite T. unfold drawImage_timeout. simpl.
    now rewrite I, D, X. }
  assert (A : added (drawingCanvas s) (drawingCanvas s')
              = [SetWidth (newWidth t); SetHeight (newHeight t)]).
  { rewrite S'. apply added_suffix. simpl. rewrite D. simpl.
    now rewrite <- app_assoc. }
  split; [exact A|]. split.
  - unfold mutated. fold s'. now rewrite A.
  - rewrite S'. split; reflexivity.
Qed.

Lemma step_sameBitmapSize ev s :
  sameBitmapSize s -> sameBitmapSize (step toDataURL ev s).
Proof.
  destruct s as [bsz bcol cont ic dc drawing lp dims tm mc].
  unfold sameBitmapSize. simpl. intros H.
  destruct ev as [e | e | | | image | | n]; simpl;
    unfold startDrawing, draw, stopDrawing, drawImage_onload,
      drawImage_timeout, clearEffect, clearCanvas, getCoordinates; simpl;
    branches; simpl in *; subst; simpl in *; auto;
    try discriminate;
    repeat match goal with
           | E : Some _ = Some _ |- _ => injection E as <-
           end; simpl; auto.
Qed.

(** X18: the two layers keep one pixel grid.  When the image canvas and
    the drawing canvas start with the same bitmap size, they have the
    same bitmap size after any events: the timer of [drawImage] resizes
    both or neither, and nothing else resizes a canvas. *)
Theorem layers_same_size (s0 : State) (evs : list Event) :
  sameBitmapSize s0 ->
  forall imageCanvas' drawingCanvas',
    imageCanvas (steps toDataURL evs s0) = Some imageCanvas' ->
    drawingCanvas (steps toDataURL evs s0) = Some drawingCanvas' ->
    width imageCanvas' = width drawingCanvas'
    /\ height imageCanvas' = height drawingCanvas'.
Proof.
  intros K ic dc Hi Hd.
  assert (K' : sameBitmapSize (steps toDataURL evs s0)).
  { clear Hi Hd. revert s0 K.
    induction evs as [|ev evs IH]; intros s0 K; simpl; auto.
    apply IH. now apply step_sameBitmapSize. }
  unfold sameBitmapSize in K'. now rewrite Hi, Hd in K'.
Qed.


End Events.

Lemma mask_reports_witness :
  let s := steps sampleDataURL [MouseDown (at_ 110 120)] mounted in
  isDrawing s = true
  /\ drawingCanvas s = Some blank
  /\ reports s (step sampleDataURL MouseUp s) = [sampleDataURL blank]
  /\ reports mounted (step sampleDataURL (ClearCounter 1) mounted) = [[]].
Proof.
  repeat (split; [reflexivity|]).
  exact (proj1 (proj2
           (mask_reports sampleDataURL mounted (ClearCounter 1)))
           1 blank eq_refl eq_refl eq_refl eq_refl).
Defined.

Lemma drawing_has_last_point_witness :
  coherent mounted
  /\ isDrawing (steps sampleDataURL [MouseDown (at_ 110 120)] mounted)
     = isSome (lastPoint
                 (steps sampleDataURL [MouseDown (at_ 110 120)] mounted)).
Proof.
  assert (K : coherent mounted) by (split; [reflexivity | discriminate]).
  split; [exact K|].
  exact (proj1 (drawing_has_last_point sampleDataURL mounted [MouseDown (at_ 110 120)] K)).
Defined.

Lemma stroke_is_connected_witness :
  drawingCanvas mounted = Some blank /\ context2d blank = true
  /\ added (drawingCanvas mounted)
       (drawingCanvas
          (steps sampleDataURL
             (MouseDown (at_ 110 120)
                :: map MouseMove [at_ 130 125; at_ 150 125] ++ [MouseUp])
             mounted))
     = segment (lit "#FFFFFF") 40 {| x := 100; y := 100 |}
         {| x := 120; y := 105 |}
       ++ segment (lit "#FFFFFF") 40 {| x := 120; y := 105 |}
            {| x := 140; y := 105 |}.
Proof.
  repeat (split; [reflexivity|]).
  exact (proj1 (proj2 (stroke_is_connected sampleDataURL mounted blank (at_ 110 120)
                         [at_ 130 125; at_ 150 125] eq_refl eq_refl))).
Defined.

Lemma resize_wipes_silently_witness :
  maskChanges (step sampleDataURL Timeout resizing) = maskChanges resizing
  /\ mutated sampleDataURL Timeout resizing = true.
Proof.
  destruct (resize_wipes_silently sampleDataURL resizing
              {| timer_image := photo; newWidth := 400;
                 newHeight := (400 / (300 / 200))%float |} []
              blank
              {| width := 300; height := 150; context2d := true;
                 rectLeft := 10; rectTop := 20;
                 ops := segment (lit "#FFFFFF") 40
                          {| x := 100; y := 100 |} {| x := 120; y := 105 |} |}
              eq_refl eq_refl eq_refl eq_refl) as [_ [M [R _]]].
  split; [exact R | exact M].
Defined.

Lemma layers_same_size_witness :
  sameBitmapSize mounted
  /\ width fittedImageCanvas = width fittedDrawingCanvas
  /\ height fittedImageCanvas = height fittedDrawingCanvas.
Proof.
  assert (K : sameBitmapSize mounted) by (split; reflexivity).
  split; [exact K|].
  exact (layers_same_size sampleDataURL mounted [ImageLoad photo; Timeout] K
           fittedImageCanvas fittedDrawingCanvas eq_refl eq_refl).
Defined.


End CanvasMore.

(* ================================================================== *)
(** * [App] and its masking canvas together *)
(* ================================================================== *)

Module WiringFacts.

Import Js Dom Async Gemini App AppView Wiring Samples MoreSamples.
Import MaskingCanvasFacts CanvasMore.
Open Scope N_scope.

(** X20: 'Clear mask' ends with nothing to generate from.
    [handleClearMask] raises the clear counter, so the effect of the
    canvas runs with a positive counter: it clears the whole bitmap of
    the drawing canvas and reports the empty string, which
    [handleMaskChange] stores; the mask is then falsy, the button is
    disabled, and a [handleGenerate] sends no request. *)
Theorem clear_mask_round_trip (toDataURL : MaskingCanvas.Canvas -> jsstring)
    (w : World) (s : State) (cs : MaskingCanvas.State)
    (canvas : MaskingCanvas.Canvas) :
  MaskingCanvas.drawingCanvas cs = Some canvas ->
  MaskingCanvas.context2d canvas = true ->
  let s1 := handleClearMask s in
  let cs1 := MaskingCanvas.step toDataURL
               (MaskingCanvas.ClearCounter (clearCanvasCounter s1)) cs in
  let s2 := deliver (CanvasSpec.reports cs cs1) s1 in
  MaskingCanvas.added (MaskingCanvas.drawingCanvas cs)
    (MaskingCanvas.drawingCanvas cs1)
  = [MaskingCanvas.ClearRect 0 0 (MaskingCanvas.width canvas)
       (MaskingCanvas.height canvas)]
  /\ CanvasSpec.reports cs cs1 = [[]]
  /\ maskImage s2 = Some []
  /\ isGenerateDisabled s2 = true
  /\ requests (trace (run w (handleGenerate s2) s2)) = [].
Proof.
  intros C X s1 cs1 s2.
  assert (P : (0 <? clearCanvasCounter s1) = true).
  { unfold s1. simpl. apply N.ltb_lt. lia. }
  assert (E : cs1 = MaskingCanvas.onMaskChange []
                      (MaskingCanvas.setDrawingCanvas
                         (Some (MaskingCanvas.call
                                  [MaskingCanvas.ClearRect 0 0
                                     (MaskingCanvas.width canvas)
                                     (MaskingCanvas.height canvas)] canvas))
                         cs)).
  { unfold cs1. cbn [MaskingCanvas.step].
    unfold MaskingCanvas.clearEffect. rewrite P.
    unfold MaskingCanvas.clearCanvas. now rewrite C, X. }
  assert (R : CanvasSpec.reports cs cs1 = [[]]).
  { rewrite E. now apply reports_one. }
  assert (M : maskImage s2 = Some []).
  { unfold s2. rewrite R. reflexivity. }
  assert (G : guard s2 = true).
  { unfold guard. rewrite M. simpl. now rewrite orb_true_r. }
  repeat split; auto.
  - rewrite E. apply added_suffix. simpl. now rewrite C.
  - unfold isGenerateDisabled. rewrite M. simpl.
    now rewrite orb_true_r.
  - unfold handleGenerate. now rewrite G.
Qed.

Lemma clear_mask_round_trip_witness :
  MaskingCanvas.drawingCanvas mounted = Some blank
  /\ MaskingCanvas.context2d blank = true
  /\ isGenerateDisabled
       (deliver
          (CanvasSpec.reports mounted
             (MaskingCanvas.step sampleDataURL
                (MaskingCanvas.ClearCounter
                   (clearCanvasCounter (handleClearMask readyState)))
                mounted))
          (handleClearMask readyState)) = true.
Proof.
  repeat (split; [reflexivity|]).
  exact (proj1 (proj2 (proj2 (proj2
           (clear_mask_round_trip sampleDataURL (answering imageResponse)
              readyState mounted blank eq_refl eq_refl))))).
Defined.

(** X21: a stroke reaches [App].  After a press, moves and a release
    over a canvas with a 2D context, the one report of the canvas,
    delivered through [handleMaskChange], leaves in [maskImage] the
    serialization of the drawing canvas that holds the whole stroke;
    the seven other cells of [App] are unchanged. *)
Theorem stroke_reaches_app (toDataURL : MaskingCanvas.Canvas -> jsstring)
    (s : State) (cs : MaskingCanvas.State) (canvas : MaskingCanvas.Canvas)
    (press : MaskingCanvas.MouseEvent)
    (moves : list MaskingCanvas.MouseEvent) :
  MaskingCanvas.drawingCanvas cs = Some canvas ->
  MaskingCanvas.context2d canvas = true ->
  let cs' := MaskingCanvas.steps toDataURL
               (MaskingCanvas.MouseDown press
                  :: map MaskingCanvas.MouseMove moves
                  ++ [MaskingCanvas.MouseUp]) cs in
  let s' := deliver (CanvasSpec.reports cs cs') s in
  maskImage s'
  = Some (toDataURL
            (MaskingCanvas.call
               (CanvasSpec.polyline (MaskingCanvas.brushColor cs)
                  (MaskingCanvas.brushSize cs)
                  (CanvasSpec.pointOf canvas press)
                  (map (CanvasSpec.pointOf canvas) moves))
               canvas))
  /\ status s' = status s /\ originalImage s' = originalImage s
  /\ prompt s' = prompt s /\ generatedImage s' = generatedImage s
  /\ error s' = error s /\ brushSize s' = brushSize s
  /\ clearCanvasCounter s' = clearCanvasCounter s.
Proof.
  intros C X cs' s'.
  destruct (stroke_runs toDataURL cs canvas press moves C X)
    as [_ [_ [_ [R _]]]].
  fold cs' in R. unfold s'. rewrite R. repeat split.
Qed.

Lemma stroke_reaches_app_witness :
  MaskingCanvas.drawingCanvas mounted = Some blank
  /\ MaskingCanvas.context2d blank = true
  /\ status
       (deliver
          (CanvasSpec.reports mounted
             (MaskingCanvas.steps sampleDataURL
                (MaskingCanvas.MouseDown (at_ 110 120)
                   :: map MaskingCanvas.MouseMove [at_ 130 125]
                   ++ [MaskingCanvas.MouseUp]) mounted))
          readyState)
     = status readyState.
Proof.
  repeat (split; [reflexivity|]).
  exact (proj1 (proj2 (stroke_reaches_app sampleDataURL readyState mounted
                         blank (at_ 110 120) [at_ 130 125]
                         eq_refl eq_refl))).
Defined.

End WiringFacts.
